(** * Troll Swap: the Jupiter proxy routes and the swap page logic

    A shallow embedding of the decision logic of
    - [src/app/api/jupiter/[...path]/route.ts] (the streaming proxy),
    - the second, buffering version of the same route handler,
    - [src/app/page.tsx] (mint decimals, quote retry, withdrawal, swap and the
      balance subscription effect).

    Platform objects are modelled by the data the code hands to them: a
    [Headers] object is its header list, a [Response] is the body and the init
    record given to its constructor, a [URL] is its base, relative reference
    and search parameters.  Console logging is not modelled. *)

From Stdlib Require Import ZArith QArith Qround List String Ascii Bool Lia.
Import ListNotations.

Local Open Scope string_scope.
Local Open Scope Z_scope.

(** ** Strings *)

Definition lower_ascii (c : ascii) : ascii :=
  let n := nat_of_ascii c in
  if (Nat.leb 65 n && Nat.leb n 90)%bool then ascii_of_nat (n + 32) else c.

Fixpoint lower (s : string) : string :=
  match s with
  | EmptyString => EmptyString
  | String c r => String (lower_ascii c) (lower r)
  end.

(** [s.replace(/\/$/, '')]: one trailing slash is removed. *)
Fixpoint strip_trailing_slash (s : string) : string :=
  match s with
  | EmptyString => EmptyString
  | String c EmptyString => if Ascii.eqb c "/" then EmptyString else s
  | String c r => String c (strip_trailing_slash r)
  end.

(** The double quote character, for JSON text. *)
Definition dq : string := String (ascii_of_nat 34) EmptyString.

(** ** Headers

    The header list of a Fetch [Headers] object.  Names are compared
    byte-case-insensitively; [set] writes the first entry of that name and
    removes the others, [get] joins the values of that name with a comma and
    a space, [delete] removes every entry of that name. *)
Module Headers.

Definition t : Type := list (string * string).

Definition same_name (a b : string) : bool := String.eqb (lower a) (lower b).

Definition is_name (name : string) (e : string * string) : bool :=
  same_name (fst e) name.

Definition has (h : t) (name : string) : bool := existsb (is_name name) h.

Definition values (h : t) (name : string) : list string :=
  map snd (filter (is_name name) h).

Definition get (h : t) (name : string) : option string :=
  match values h name with
  | [] => None
  | vs => Some (String.concat ", " vs)
  end.

Definition delete (h : t) (name : string) : t :=
  filter (fun e => negb (is_name name e)) h.

Fixpoint set (h : t) (name value : string) : t :=
  match h with
  | [] => [(lower name, value)]
  | e :: r =>
      if is_name name e then (fst e, value) :: delete r name
      else e :: set r name value
  end.

(** [new Headers(record)]: every entry of the record is appended. *)
Definition of_record (r : list (string * string)) : t :=
  map (fun e => (lower (fst e), snd e)) r.

(** [new Headers(other)]: a copy of the other header list. *)
Definition copy (h : t) : t := h.

Definition empty : t := [].

End Headers.

(** ** The proxy route handlers *)
Module Route.

Definition CORS_HEADERS : list (string * string) :=
  [ ("Access-Control-Allow-Origin", "*");
    ("Access-Control-Allow-Methods", "GET,POST,OPTIONS");
    ("Access-Control-Allow-Headers", "Content-Type, Authorization, X-Requested-With");
    ("Access-Control-Max-Age", "86400") ].

(** [Object.entries(CORS_HEADERS).forEach(([key, value]) => headers.set(key, value))] *)
Definition applyCors (headers : Headers.t) : Headers.t :=
  fold_left (fun h e => Headers.set h (fst e) (snd e)) CORS_HEADERS headers.

(** The incoming request, as far as the handler reads it. *)
Record NextRequest : Type := mkRequest {
  req_method : string;
  req_searchParams : list (string * string);
  req_headers : Headers.t;
  req_text : string
}.

(** The awaited route parameters: [{ path?: string[] }], possibly nullish. *)
Definition RouteParams : Type := option (option (list string)).

Record URL : Type := mkURL {
  url_base : string;
  url_relative : string;
  url_searchParams : list (string * string)
}.

(** The arguments of the upstream [fetch]. *)
Record UpstreamRequest : Type := mkUpstream {
  up_url : URL;
  up_method : string;
  up_headers : Headers.t;
  up_cache : string;
  up_body : option string
}.

Record UpstreamResponse : Type := mkUpstreamResponse {
  ur_status : Z;
  ur_statusText : string;
  ur_headers : Headers.t;
  ur_body : string
}.

(** What a [catch] clause receives: an [Error] with its message, or any
    other thrown value. *)
Inductive thrown : Type :=
| ErrorObject (message : string)
| NotAnError.

Inductive fetch_outcome : Type :=
| Resolved (r : UpstreamResponse)
| Rejected (e : thrown).

Record Response : Type := mkResponse {
  body : option string;
  status : Z;
  statusText : string;
  headers : Headers.t
}.

(** What the platform does and the code cannot see into. *)
Record Platform : Type := mkPlatform {
  (** [await response.text()] on a payload, as the bytes that its result
      has as the body of a new [Response]: the payload decoded as UTF-8, a
      leading byte order mark dropped, and encoded again. *)
  Response_text : string -> string;
  (** [payload.toString('utf8')] of a [Buffer] likewise; a byte order mark
      stays. *)
  Buffer_toString : string -> string;
  (** [JSON.stringify] of a string: its JSON string literal. *)
  JSON_stringify_string : string -> string;
  (** The messages of the errors that the [Response] constructor throws:
      the RangeError for a status, the TypeError for a status text, the
      TypeError for a body with a null body status. *)
  status_message : Z -> string;
  statusText_message : string -> string;
  null_body_message : Z -> string
}.

(** The null body statuses of the Fetch standard. *)
Definition null_body_status (status : Z) : bool :=
  existsb (Z.eqb status) [101; 103; 204; 205; 304].

(** The reason-phrase production of HTTP: tab, space, visible ASCII and the
    bytes from 128 on. *)
Definition reason_byte (c : ascii) : bool :=
  let n := nat_of_ascii c in
  (Nat.eqb n 9 || (Nat.leb 32 n && Nat.leb n 126) || Nat.leb 128 n)%bool.

Fixpoint reason_phrase (s : string) : bool :=
  match s with
  | EmptyString => true
  | String c r => (reason_byte c && reason_phrase r)%bool
  end.

Inductive constructed : Type :=
| Built (r : Response)
| Threw (e : thrown).

(** [new Response(body, { status, statusText, headers })] as the Fetch
    standard has it: the status is converted to an unsigned short and has
    to lie between 200 and 599, the status text has to be a reason phrase,
    and a body is refused with a null body status. *)
Definition Response_new (platform : Platform) (body : option string) (status : Z)
           (statusText : string) (headers : Headers.t) : constructed :=
  let status := status mod 65536 in
  if ((status <? 200) || (599 <? status))%bool
  then Threw (ErrorObject (status_message platform status))
  else if negb (reason_phrase statusText)
  then Threw (ErrorObject (statusText_message platform statusText))
  else match body with
  | Some _ =>
      if null_body_status status
      then Threw (ErrorObject (null_body_message platform status))
      else Built (mkResponse body status statusText headers)
  | None => Built (mkResponse None status statusText headers)
  end.

Definition forwardHeaders : list string := ["content-type"; "accept"; "authorization"].

Definition segments_of (params : RouteParams) : list string :=
  match params with
  | Some (Some p) => p
  | _ => []
  end.

Section Handlers.

(** [process.env.JUPITER_UPSTREAM_URL] *)
Variable JUPITER_UPSTREAM_URL : option string.
Variable platform : Platform.

Definition UPSTREAM_BASE : string :=
  strip_trailing_slash
    (match JUPITER_UPSTREAM_URL with
     | Some u => u
     | None => "https://lite-api.jup.ag/swap/v1"
     end).

(** Lines 24-48 of route.ts; the buffering handler has the same text. *)
Definition upstream_request (request : NextRequest) (params : RouteParams)
  : UpstreamRequest :=
  let segments := segments_of params in
  let targetUrl :=
    mkURL (UPSTREAM_BASE ++ "/") (String.concat "/" segments)
          (fold_left (fun acc kv => List.app acc [kv]) (req_searchParams request) []) in
  let headers :=
    fold_left
      (fun h name =>
         match Headers.get (req_headers request) name with
         | Some value => if String.eqb value "" then h else Headers.set h name value
         | None => h
         end)
      forwardHeaders Headers.empty in
  let headers :=
    if negb (Headers.has headers "accept")
    then Headers.set headers "accept" "application/json" else headers in
  let init_body :=
    if (negb (String.eqb (req_method request) "GET")
        && negb (String.eqb (req_method request) "HEAD")
        && negb (String.eqb (req_method request) "OPTIONS"))%bool
    then (let body := req_text request in
          if String.eqb body "" then None else Some body)
    else None in
  mkUpstream targetUrl (req_method request) headers "no-store" init_body.

(** [upstreamResponse.body]: fetch gives a response no body, null, when the
    method is HEAD or CONNECT or the status is a null body status;
    otherwise the body is the stream of the payload. *)
Definition upstream_body (request : NextRequest) (upstreamResponse : UpstreamResponse)
  : option string :=
  if (String.eqb (req_method request) "HEAD"
      || String.eqb (req_method request) "CONNECT"
      || null_body_status (ur_status upstreamResponse))%bool
  then None
  else Some (ur_body upstreamResponse).

(** The bytes that [text()] and [arrayBuffer()] read: none from a null
    body.  The payload is taken to arrive in full. *)
Definition payload_of (request : NextRequest) (upstreamResponse : UpstreamResponse)
  : string :=
  match upstream_body request upstreamResponse with
  | Some bytes => bytes
  | None => ""
  end.

(** The [catch] block, the same in both handlers.  Its [Response] is built
    from a string, the status 502 and no status text, which the constructor
    accepts. *)
Definition proxy_failed (error : thrown) : Response :=
  let message :=
    match error with
    | ErrorObject m => m
    | NotAnError => "Unknown proxy error"
    end in
  let headers := Headers.of_record [("Content-Type", "application/json")] in
  let headers := applyCors headers in
  mkResponse
    (Some ("{" ++ dq ++ "error" ++ dq ++ ":" ++ dq ++ "Jupiter proxy failed" ++ dq ++ ","
               ++ dq ++ "message" ++ dq ++ ":" ++ JSON_stringify_string platform message
               ++ "}"))
    502 "" headers.

(** The end of the [try] block: the response that was built, or the
    answer of the [catch] block when the constructor threw. *)
Definition or_failed (c : constructed) : Response :=
  match c with
  | Built r => r
  | Threw error => proxy_failed error
  end.

(** [proxy] of route.ts: the upstream body is streamed through unless the
    status is an error status. *)
Definition proxy (fetch : UpstreamRequest -> fetch_outcome)
           (request : NextRequest) (params : RouteParams) : Response :=
  match fetch (upstream_request request params) with
  | Resolved upstreamResponse =>
      let responseHeaders := Headers.copy (ur_headers upstreamResponse) in
      let responseHeaders := applyCors responseHeaders in
      if 400 <=? ur_status upstreamResponse then
        let errorBody := Response_text platform (payload_of request upstreamResponse) in
        let responseHeaders := Headers.delete responseHeaders "content-encoding" in
        let responseHeaders := Headers.delete responseHeaders "content-length" in
        or_failed
          (Response_new platform (Some errorBody) (ur_status upstreamResponse)
                        (ur_statusText upstreamResponse) responseHeaders)
      else
        or_failed
          (Response_new platform (upstream_body request upstreamResponse)
                        (ur_status upstreamResponse)
                        (ur_statusText upstreamResponse) responseHeaders)
  | Rejected error => proxy_failed error
  end.

(** [proxy] of the buffering handler: the payload is read into a [Buffer]
    first and the two length and encoding headers are dropped for every
    status. *)
Definition proxy_buffering (fetch : UpstreamRequest -> fetch_outcome)
           (request : NextRequest) (params : RouteParams) : Response :=
  match fetch (upstream_request request params) with
  | Resolved upstreamResponse =>
      let responseHeaders := Headers.copy (ur_headers upstreamResponse) in
      let responseHeaders := applyCors responseHeaders in
      let payload := payload_of request upstreamResponse in
      let responseHeaders := Headers.delete responseHeaders "content-encoding" in
      let responseHeaders := Headers.delete responseHeaders "content-length" in
      if 400 <=? ur_status upstreamResponse then
        let errorText := Buffer_toString platform payload in
        or_failed
          (Response_new platform (Some errorText) (ur_status upstreamResponse)
                        (ur_statusText upstreamResponse) responseHeaders)
      else
        or_failed
          (Response_new platform (Some payload) (ur_status upstreamResponse)
                        (ur_statusText upstreamResponse) responseHeaders)
  | Rejected error => proxy_failed error
  end.

Definition GET := proxy.
Definition POST := proxy.

(** [new Response(null, { status: 204, headers })], which the constructor
    accepts. *)
Definition OPTIONS : Response :=
  let headers := Headers.empty in
  let headers := applyCors headers in
  mkResponse None 204 "" headers.

(** The three exported handlers of route.ts. *)
Inductive handler : Type := HGet | HPost | HOptions.

Definition handle (h : handler) (fetch : UpstreamRequest -> fetch_outcome)
           (request : NextRequest) (params : RouteParams) : Response :=
  match h with
  | HGet => GET fetch request params
  | HPost => POST fetch request params
  | HOptions => OPTIONS
  end.

End Handlers.


(** The four CORS headers of a response. *)
Definition carries_cors (r : Response) : Prop :=
  Headers.get (headers r) "Access-Control-Allow-Origin" = Some "*" /\
  Headers.get (headers r) "Access-Control-Allow-Methods" = Some "GET,POST,OPTIONS" /\
  Headers.get (headers r) "Access-Control-Allow-Headers"
    = Some "Content-Type, Authorization, X-Requested-With" /\
  Headers.get (headers r) "Access-Control-Max-Age" = Some "86400".

(** What the buffering handler removes from every upstream response. *)
Definition strip_length_and_encoding (h : Headers.t) : Headers.t :=
  Headers.delete (Headers.delete h "content-encoding") "content-length".

(** Sample traffic. *)
Definition sample_request : NextRequest :=
  mkRequest "GET" [("inputMint", "So11111111111111111111111111111111111111112")]
            [("accept", "*/*"); ("user-agent", "curl/8.5.0")] "".

Definition sample_request_other_agent : NextRequest :=
  mkRequest "GET" [("inputMint", "So11111111111111111111111111111111111111112")]
            [("accept", "*/*"); ("user-agent", "Mozilla/5.0"); ("cookie", "a=b")] "".

Definition sample_post : NextRequest :=
  mkRequest "POST" [] [("content-type", "application/json")] "{}".

Definition sample_params : RouteParams := Some (Some ["quote"]).

Definition sample_ok : UpstreamResponse :=
  mkUpstreamResponse 200 "OK"
    [("content-type", "application/json"); ("content-length", "2")] "{}".


Definition sample_decode (s : string) : string := s.
Definition sample_stringify (s : string) : string := dq ++ s ++ dq.

(** The byte order mark, as UTF-8. *)
Definition bom : string :=
  String (ascii_of_nat 239) (String (ascii_of_nat 187) (String (ascii_of_nat 191) "")).

(** On the sample texts, which are ASCII but for a byte order mark in
    front, [text()] drops the mark and [toString] keeps it. *)
Definition sample_text (s : string) : string :=
  if String.prefix bom s then String.substring 3 (String.length s - 3) s else s.

Definition sample_platform : Platform :=
  mkPlatform sample_text sample_decode sample_stringify
    (fun _ => "init[status] must be in the range of 200 to 599, inclusive.")
    (fun _ => "Invalid statusText")
    (fun _ => "Response constructor: Invalid response status code").




End Route.

(** ** JavaScript numbers and values

    A [number] is NaN, an infinity or a finite value.  A finite value is the
    rational that a binary64 number stands for; zero has no sign.  The
    arithmetic operations round their exact result to binary64, to the
    nearest value with ties to even, and overflow to an infinity;
    comparisons, [Math.floor] and [Math.ceil] are exact. *)
Module Js.

Inductive number : Type :=
| NaN
| PosInf
| NegInf
| Fin (q : Q).

Definition of_Z (z : Z) : number := Fin (inject_Z z).

Definition Qltb (p q : Q) : bool := negb (Qle_bool q p).

(** [Number.isFinite] *)
Definition isFinite (n : number) : bool :=
  match n with
  | Fin _ => true
  | _ => false
  end.

(** [a < b] *)
Definition lt (a b : number) : bool :=
  match a, b with
  | NaN, _ | _, NaN => false
  | Fin p, Fin q => Qltb p q
  | NegInf, NegInf => false
  | NegInf, _ => true
  | _, NegInf => false
  | PosInf, _ => false
  | Fin _, PosInf => true
  end.

(** [a <= b] *)
Definition le (a b : number) : bool :=
  match a, b with
  | NaN, _ | _, NaN => false
  | Fin p, Fin q => Qle_bool p q
  | NegInf, _ => true
  | _, PosInf => true
  | _, NegInf => false
  | PosInf, Fin _ => false
  end.

(** [a >= b] *)
Definition ge (a b : number) : bool := le b a.

(** *** Rounding to binary64 *)

(** [floor (log2 (n / d))] for positive [n] and [d]. *)
Definition ilog2 (n d : Z) : Z :=
  let k := Z.log2 n - Z.log2 d in
  if n * 2 ^ Z.max 0 (- k) <? d * 2 ^ Z.max 0 k then k - 1 else k.

(** The integer nearest to [n / d] for [d > 0], a tie going to the even
    one. *)
Definition rne (n d : Z) : Z :=
  let q := n / d in
  let r := n mod d in
  match 2 * r ?= d with
  | Lt => q
  | Gt => q + 1
  | Eq => if Z.even q then q else q + 1
  end.

(** The binary64 value nearest to [n / d] for positive [n] and [d]: a
    significand [m] of at most 53 bits at the exponent [e], which is at
    least -1074 (there the subnormal numbers start); [None] when the
    result is 2^1024, which is the overflow. *)
Definition round_pos (n d : Z) : option Q :=
  let e := Z.max (ilog2 n d - 52) (-1074) in
  if 0 <=? e then
    let m := rne n (d * 2 ^ e) in
    if 2 ^ 1024 <=? m * 2 ^ e then None else Some (inject_Z (m * 2 ^ e))
  else
    let m := rne (n * 2 ^ (- e)) d in
    Some (Qred (m # Z.to_pos (2 ^ (- e)))).

(** The number that an exact result becomes. *)
Definition binary64 (q : Q) : number :=
  match Qnum q with
  | Z0 => Fin 0
  | Zpos n =>
      match round_pos (Zpos n) (Zpos (Qden q)) with
      | Some r => Fin r
      | None => PosInf
      end
  | Zneg n =>
      match round_pos (Zpos n) (Zpos (Qden q)) with
      | Some r => Fin (- r)
      | None => NegInf
      end
  end.
Arguments binary64 : simpl never.

(** [Math.max(a, b)] *)
Definition max (a b : number) : number :=
  match a, b with
  | NaN, _ | _, NaN => NaN
  | PosInf, _ | _, PosInf => PosInf
  | NegInf, x | x, NegInf => x
  | Fin p, Fin q => if Qle_bool p q then Fin q else Fin p
  end.

Definition scale_inf (positive_inf : bool) (q : Q) : number :=
  if Qltb 0 q then (if positive_inf then PosInf else NegInf)
  else if Qltb q 0 then (if positive_inf then NegInf else PosInf)
  else NaN.

(** [a * b] *)
Definition mul (a b : number) : number :=
  match a, b with
  | NaN, _ | _, NaN => NaN
  | Fin p, Fin q => binary64 (p * q)
  | PosInf, PosInf | NegInf, NegInf => PosInf
  | PosInf, NegInf | NegInf, PosInf => NegInf
  | PosInf, Fin q | Fin q, PosInf => scale_inf true q
  | NegInf, Fin q | Fin q, NegInf => scale_inf false q
  end.

(** [a + b] *)
Definition add (a b : number) : number :=
  match a, b with
  | NaN, _ | _, NaN => NaN
  | Fin p, Fin q => binary64 (p + q)
  | PosInf, NegInf | NegInf, PosInf => NaN
  | PosInf, _ | _, PosInf => PosInf
  | NegInf, _ | _, NegInf => NegInf
  end.

(** [Math.floor] *)
Definition floor (a : number) : number :=
  match a with
  | Fin q => of_Z (Qfloor q)
  | other => other
  end.

(** [Math.ceil] *)
Definition ceil (a : number) : number :=
  match a with
  | Fin q => of_Z (Qceiling q)
  | other => other
  end.

(** Values as JSON and the RPC client deliver them; a [JBuffer] is a Node
    [Buffer], an object with no named own property. *)
Inductive value : Type :=
| JUndefined
| JNull
| JBool (b : bool)
| JNumber (n : number)
| JString (s : string)
| JBuffer (bytes : string)
| JObject (fields : list (string * value)).

Definition truthy (v : value) : bool :=
  match v with
  | JUndefined | JNull => false
  | JBool b => b
  | JNumber (Fin q) => negb (Qeq_bool q 0)
  | JNumber NaN => false
  | JNumber _ => true
  | JString s => negb (String.eqb s "")
  | JBuffer _ | JObject _ => true
  end.

Inductive type_tag : Type :=
| TUndefined | TObject | TBoolean | TNumber | TString.

(** [typeof v] *)
Definition typeof (v : value) : type_tag :=
  match v with
  | JUndefined => TUndefined
  | JNull | JBuffer _ | JObject _ => TObject
  | JBool _ => TBoolean
  | JNumber _ => TNumber
  | JString _ => TString
  end.

Definition is_object_type (v : value) : bool :=
  match typeof v with
  | TObject => true
  | _ => false
  end.

Fixpoint lookup (k : string) (fields : list (string * value)) : option value :=
  match fields with
  | [] => None
  | (k', v) :: r => if String.eqb k k' then Some v else lookup k r
  end.

(** A completion: a value, or a thrown TypeError. *)
Inductive completion (A : Type) : Type :=
| Normal (a : A)
| TypeError.
Arguments Normal {A} a.
Arguments TypeError {A}.

(** [v.k] for a property name [k] that no prototype defines: a TypeError on
    null and undefined, the own property or undefined otherwise. *)
Definition get_prop (v : value) (k : string) : completion value :=
  match v with
  | JUndefined | JNull => TypeError
  | JObject fields =>
      match lookup k fields with
      | Some x => Normal x
      | None => Normal JUndefined
      end
  | _ => Normal JUndefined
  end.

(** [v?.k] *)
Definition get_prop_opt (v : value) (k : string) : value :=
  match get_prop v k with
  | Normal x => x
  | TypeError => JUndefined
  end.

(** [k in v] for an object [v]; a TypeError on a primitive. *)
Definition has_prop (k : string) (v : value) : completion bool :=
  match v with
  | JObject fields =>
      match lookup k fields with
      | Some _ => Normal true
      | None => Normal false
      end
  | JBuffer _ => Normal false
  | _ => TypeError
  end.

(** A thrown [Error] object. *)
Record Error : Type := mkError { message : string }.

End Js.

(** ** page.tsx: helpers *)
Module Page.

Import Js.

(** Modelled from the spec: [LAMPORTS_PER_SOL] is imported from
    @solana/web3.js, which is not among the sources; its value is the 10^9
    that the specification states, and by which line 607 divides a lamport
    balance. *)
Definition LAMPORTS_PER_SOL : number := of_Z 1000000000.

(** The decimal literal [0.004]: the binary64 value nearest to 4/1000. *)
Definition SOL_FEE_BUFFER : number := binary64 (4 # 1000).

Definition PublicKey : Type := string.

(** *** getMintDecimals *)

(** How an awaited RPC call completes. *)
Inductive rpc (A : Type) : Type :=
| Fulfilled (a : A)
| RejectedWith (e : Error).
Arguments Fulfilled {A} a.
Arguments RejectedWith {A} e.

(** What an async function settles to. *)
Inductive settled (A : Type) : Type :=
| Returns (a : A)
| Throws (e : Error)
| ThrowsTypeError.
Arguments Returns {A} a.
Arguments Throws {A} e.
Arguments ThrowsTypeError {A}.

(** The [if] of lines 117-124, evaluated left to right with short circuit. *)
Definition has_parsed_data (v : value) : completion (option value) :=
  if negb (truthy v) then Normal None
  else if negb (is_object_type v) then Normal None
  else match has_prop "data" v with
  | TypeError => TypeError
  | Normal false => Normal None
  | Normal true =>
      match get_prop v "data" with
      | TypeError => TypeError
      | Normal data =>
          if negb (truthy data) then Normal None
          else if negb (is_object_type data) then Normal None
          else match has_prop "parsed" data with
          | TypeError => TypeError
          | Normal false => Normal None
          | Normal true => Normal (Some data)
          end
      end
  end.

(** [parsed?.info?.decimals] followed by [typeof d === 'number']. *)
Definition numeric_decimals (parsed : value) : option number :=
  match get_prop_opt (get_prop_opt parsed "info") "decimals" with
  | JNumber d => Some d
  | _ => None
  end.

(** [getMintDecimals] of lines 114-132, given how
    [connection.getParsedAccountInfo] settles and the [value] field of its
    result. *)
Definition getMintDecimals (info : rpc value) : settled number :=
  match info with
  | RejectedWith e => Throws e
  | Fulfilled v =>
      match has_parsed_data v with
      | TypeError => ThrowsTypeError
      | Normal None => Returns (of_Z 9)
      | Normal (Some data) =>
          match get_prop data "parsed" with
          | TypeError => ThrowsTypeError
          | Normal parsed =>
              match numeric_decimals parsed with
              | Some d => Returns d
              | None => Returns (of_Z 9)
              end
          end
      end
  end.

(** [getMintDecimals] of lines 1350-1360, which reads the value at its
    declared type [AccountInfo<Buffer | ParsedAccountData> | null]. *)
Definition getMintDecimals_typed (info : rpc value) : settled number :=
  match info with
  | RejectedWith e => Throws e
  | Fulfilled v =>
      if negb (truthy v) then Returns (of_Z 9)
      else match get_prop v "data" with
      | TypeError => ThrowsTypeError
      | Normal data =>
          if negb (is_object_type data) then Returns (of_Z 9)
          else match get_prop data "parsed" with
          | TypeError => ThrowsTypeError
          | Normal parsed =>
              if negb (truthy parsed) then Returns (of_Z 9)
              else match numeric_decimals parsed with
              | Some dec => Returns dec
              | None => Returns (of_Z 9)
              end
          end
      end
  end.

(** The declared result type of [getParsedAccountInfo]. *)
Record ParsedAccountData : Type := mkParsedAccountData {
  pad_program : string;
  pad_parsed : value;
  pad_space : number
}.

Inductive account_data : Type :=
| RawData (bytes : string)
| ParsedData (p : ParsedAccountData).

Record AccountInfo : Type := mkAccountInfo {
  ai_executable : bool;
  ai_owner : PublicKey;
  ai_lamports : number;
  ai_data : account_data;
  ai_rentEpoch : option number
}.

Definition js_of_data (d : account_data) : value :=
  match d with
  | RawData bytes => JBuffer bytes
  | ParsedData p =>
      JObject [("program", JString (pad_program p));
               ("parsed", pad_parsed p);
               ("space", JNumber (pad_space p))]
  end.

Definition js_of_account (a : option AccountInfo) : value :=
  match a with
  | None => JNull
  | Some ai =>
      JObject
        ([("executable", JBool (ai_executable ai));
          ("owner", JString (ai_owner ai));
          ("lamports", JNumber (ai_lamports ai));
          ("data", js_of_data (ai_data ai))]
         ++ match ai_rentEpoch ai with
            | Some r => [("rentEpoch", JNumber r)]
            | None => []
            end)%list
  end.

(** The result the specification gives for an account-info result: the
    numeric [decimals] field of the parsed [info], 9 when the value is
    null, the data is not parsed, or there is no such numeric field. *)
Definition spec_numeric_decimals_field (parsed : value) : option number :=
  match parsed with
  | JObject fields =>
      match lookup "info" fields with
      | Some (JObject info) =>
          match lookup "decimals" info with
          | Some (JNumber d) => Some d
          | _ => None
          end
      | _ => None
      end
  | _ => None
  end.

Definition spec_decimals (a : option AccountInfo) : number :=
  match a with
  | None => of_Z 9
  | Some ai =>
      match ai_data ai with
      | RawData _ => of_Z 9
      | ParsedData p =>
          match spec_numeric_decimals_field (pad_parsed p) with
          | Some d => d
          | None => of_Z 9
          end
      end
  end.

(** *** fetchQuoteWithRetry *)

(** How one call of [doFetch] settles: with a value, or rejected with an
    [Error] object, which is what the fetch wrappers of this code base throw. *)
Inductive attempt : Type :=
| Quote (q : value)
| Fails (e : Error).

Inductive retry_event : Type :=
| CallFetch (i : nat)
| Sleep (ms : Z).

Definition fresh_error : Error := mkError "Quote failed after retries".

(** The loop of lines 148-156 from iteration [i] with [remaining = tries - i]
    iterations to go; [doFetch k] is how the call made in iteration [k]
    settles.  The result is the trace and the value returned, if any,
    together with [lastErr]. *)
Fixpoint retry_loop (doFetch : nat -> attempt) (delayMs : Z)
         (remaining i : nat) (lastErr : option Error)
  : list retry_event * (option value * option Error) :=
  match remaining with
  | O => ([], (None, lastErr))
  | S remaining' =>
      let wait := Sleep (delayMs * (Z.of_nat i + 1)) in
      match doFetch i with
      | Quote q =>
          if truthy q then ([CallFetch i], (Some q, lastErr))
          else
            let '(t, r) := retry_loop doFetch delayMs remaining' (S i) lastErr in
            (CallFetch i :: wait :: t, r)
      | Fails e =>
          let '(t, r) := retry_loop doFetch delayMs remaining' (S i) (Some e) in
          (CallFetch i :: wait :: t, r)
      end
  end.

(** [fetchQuoteWithRetry(doFetch, tries = 3, delayMs = 450)]; an argument
    left out is [None].  [tries] is a number of iterations. *)
Definition fetchQuoteWithRetry (doFetch : nat -> attempt)
           (tries : option nat) (delayMs : option Z)
  : list retry_event * settled value :=
  let tries := match tries with Some n => n | None => 3%nat end in
  let delayMs := match delayMs with Some d => d | None => 450 end in
  let '(t, (q, lastErr)) := retry_loop doFetch delayMs tries 0 None in
  match q with
  | Some q => (t, Returns q)
  | None =>
      (t, Throws (match lastErr with Some e => e | None => fresh_error end))
  end.

(** An attempt that does not produce a quote: it throws or its value is
    falsy. *)
Definition attempt_fails (a : attempt) : bool :=
  match a with
  | Quote q => negb (truthy q)
  | Fails _ => true
  end.

(** The trace of [n] attempts without a quote, from attempt [i] on: each
    call is followed by a wait of [delayMs] times the attempt number. *)
Fixpoint failed_attempts (delayMs : Z) (n i : nat) : list retry_event :=
  match n with
  | O => []
  | S n' =>
      CallFetch i :: Sleep (delayMs * (Z.of_nat i + 1))
        :: failed_attempts delayMs n' (S i)
  end.

(** The error of the last attempt among the first [n] that threw. *)
Fixpoint last_error (doFetch : nat -> attempt) (n : nat) : option Error :=
  match n with
  | O => None
  | S n' =>
      match doFetch n' with
      | Fails e => Some e
      | Quote _ => last_error doFetch n'
      end
  end.

Definition is_call (e : retry_event) : bool :=
  match e with CallFetch _ => true | Sleep _ => false end.

Definition count_calls (t : list retry_event) : nat := List.length (filter is_call t).

(** Sample inputs. *)
Definition sample_mint : option AccountInfo :=
  Some (mkAccountInfo false "TokenkegQfeZyiNwAJbNbGKPFXCWuBvf9Ss623VQ5DA" (of_Z 1461600)
          (ParsedData
             (mkParsedAccountData "spl-token"
                (JObject [("info", JObject [("decimals", JNumber (of_Z 6));
                                            ("supply", JString "1000000")]);
                          ("type", JString "mint")])
                (of_Z 82)))
          None).

Definition sample_quote : value := JObject [("outAmount", JString "42")].

(** The first call throws, the second gives nothing, the third a quote. *)
Definition sample_fetch (i : nat) : attempt :=
  match i with
  | O => Fails (mkError "fetch failed")
  | S O => Quote JNull
  | _ => Quote sample_quote
  end.

(** The first call throws, every later call gives nothing. *)
Definition sample_fetch_failing (i : nat) : attempt :=
  match i with
  | O => Fails (mkError "fetch failed")
  | _ => Quote JUndefined
  end.

(** *** The swap screen: events and the monad of handlers

    A handler is run against the answers of the outside world and yields
    the trace of what it did.  [None] as result means the handler has
    executed [return]. *)

Inductive ToastKind : Type := success | error | info.

Inductive transaction : Type :=
| Transfer (fromPubkey toPubkey : PublicKey) (lamports : number)
           (recentBlockhash : string) (feePayer : PublicKey)
| Prebuilt (swapTransaction : string).

Inductive event : Type :=
| EToast (kind : ToastKind) (message : string) (href : option string)
| EGetLatestBlockhash
| EGetFeeForMessage (tx : transaction)
| ESendTransaction (tx : transaction)
| EFetchQuote
| EFetchSwapTransaction (quote : value)
| ERefresh
| ERefreshBalances
| ESetWdSending (b : bool)
| ESetWdEstimating (b : bool)
| ESetWdOpen (b : bool)
| ESetWdTo (s : string)
| ESetWdSol (s : string)
| ESetWdFeeLamports (fee : option Q)
| ESetLastTx (txid : string)
| ESetShowModal (b : bool).

Definition M (A : Type) : Type := (list event * option A)%type.

Definition ret {A : Type} (a : A) : M A := ([], Some a).

Definition bind {A B : Type} (m : M A) (f : A -> M B) : M B :=
  match m with
  | (t, None) => (t, None)
  | (t, Some a) => let '(t', r) := f a in ((t ++ t')%list, r)
  end.

Definition emit (e : event) : M unit := ([e], Some tt).

(** [return;] *)
Definition exit {A : Type} : M A := ([], None).

Declare Scope handler_scope.
Delimit Scope handler_scope with handler.
Notation "x <- c1 ;; c2" := (bind c1 (fun x => c2))
  (at level 100, c1 at next level, right associativity) : handler_scope.
Notation "c1 ;; c2" := (bind c1 (fun _ => c2))
  (at level 100, right associativity) : handler_scope.
Local Open Scope handler_scope.

Definition trace {A : Type} (m : M A) : list event := fst m.

Definition pushToast (kind : ToastKind) (message : string) (href : option string)
  : M unit := emit (EToast kind message href).

Definition is_send (e : event) : bool :=
  match e with ESendTransaction _ => true | _ => false end.

Definition is_fetch (e : event) : bool :=
  match e with EFetchQuote | EFetchSwapTransaction _ => true | _ => false end.

Definition is_error_toast (e : event) : bool :=
  match e with EToast error _ _ => true | _ => false end.

(** The state of [SwapScreen] that the two handlers read.  [solBalance] and
    the fee are finite numbers: a lamport balance divided by 1e9, and a fee
    the RPC node has sent as JSON;
    [amountAtomic] is the big integer of the [useMemo] at lines 747-751. *)
Record State : Type := mkState {
  publicKey : option PublicKey;
  inMintStr : string;
  outMintStr : string;
  amountStr : string;
  amountAtomic : Z;
  quoteResponseMeta : value;
  solBalance : Q;
  wdTo : string;
  wdSol : string;
  wdFeeLamports : option Q
}.

(** The answers of the RPC node, the wallet and the Jupiter hook: the block
    hash and the fee asked for by [estimateSolTransferFee], the block hash
    asked for before sending, the signature of a sent transaction, the quote,
    the built swap transaction or the [error] field of the hook's answer, and
    the hook's [refresh]. *)
Record World : Type := mkWorld {
  w_estimate_blockhash : rpc string;
  w_getFeeForMessage : transaction -> rpc (option Q);
  w_send_blockhash : rpc string;
  w_sendTransaction : transaction -> rpc string;
  w_fetchQuote : rpc value;
  w_fetchSwapTransaction : value -> rpc (Error + string);
  w_refresh : rpc unit
}.

(** [const res = f(...)] inside a [try]: the value, or the jump to [catch]. *)
Definition or_else {A B : Type} (r : rpc A) (k : A -> M B) (handler : M B) : M B :=
  match r with
  | Fulfilled a => k a
  | RejectedWith _ => handler
  end.

Section SwapScreen.

(** [process.env.NEXT_PUBLIC_SOL_MINT], [process.env.NEXT_PUBLIC_TROLL_MINT] *)
Variables SOL TROLL : string.
(** The global [parseFloat], [String.prototype.trim], and the [PublicKey]
    constructor, which throws on text that is no address. *)
Variable parseFloat : string -> number.
Variable trim : string -> string.
Variable PublicKey_new : string -> option PublicKey.
(** [(need / LAMPORTS_PER_SOL).toFixed(6)] *)
Variable needUi_text : number -> string.
(** [SystemProgram.transfer] of @solana/web3.js, which is not among the
    sources: whether it encodes a transfer of that many lamports; it
    throws for an amount that does not fit the 64 bits of the instruction. *)
Variable transfer_accepts : number -> bool.
(** The message that the [catch] block of [tryFetchQuoteSafe] hands to
    [onError] (lines 169-208). *)
Variable quote_failure_text : Error -> string.

(** [s || '0'] *)
Definition or_zero (s : string) : string :=
  if String.eqb s "" then "0" else s.

(** [Math.floor(Math.max(0, parseFloat(wdSol || '0')) * LAMPORTS_PER_SOL)] *)
Definition lamports_of_input (wdSol : string) : number :=
  floor (mul (max (of_Z 0) (parseFloat (or_zero wdSol))) LAMPORTS_PER_SOL).

(** [!Number.isFinite(lam) || lam <= 0] *)
Definition invalid_amount (lam : number) : bool :=
  negb (isFinite lam) || le lam (of_Z 0).

(** [estimateSolTransferFee], lines 470-491: whatever throws inside its
    [try], the blockhash query, the building of the transfer or the fee
    query, makes it return null. *)
Definition estimateSolTransferFee (st : State) (w : World)
           (toPk : PublicKey) (lamports : number) : M (option Q) :=
  match publicKey st with
  | None => ret None
  | Some pk =>
      emit EGetLatestBlockhash ;;
      or_else (w_estimate_blockhash w)
        (fun blockhash =>
           if transfer_accepts lamports then
             let tx := Transfer pk toPk lamports blockhash pk in
             emit (EGetFeeForMessage tx) ;;
             or_else (w_getFeeForMessage w tx)
               (fun fee => ret fee)
               (ret None)
           else ret None)
        (ret None)
  end.

Definition withdraw_buffer : number := ceil (mul SOL_FEE_BUFFER LAMPORTS_PER_SOL).

Definition withdraw_have (st : State) : number :=
  floor (mul (Fin (solBalance st)) LAMPORTS_PER_SOL).

Definition withdraw_need (amountLamports : number) (feeLamports : Q) : number :=
  add (add amountLamports (Fin feeLamports)) withdraw_buffer.

Definition sendWithdrawSol (st : State) (w : World) : M unit :=
  match publicKey st with
  | None => pushToast error "Connect your wallet first." None ;; exit
  | Some pk =>
  match PublicKey_new (trim (wdTo st)) with
  | None => pushToast error "Invalid Solana address." None ;; exit
  | Some toPk =>
  let amountLamports := lamports_of_input (wdSol st) in
  if invalid_amount amountLamports
  then pushToast error "Enter a valid SOL amount." None ;; exit
  else
  feeLamports <- match wdFeeLamports st with
                 | Some fee => ret (Some fee)
                 | None => estimateSolTransferFee st w toPk amountLamports
                 end ;;
  match feeLamports with
  | None => pushToast error "Could not estimate network fee. Try again." None ;; exit
  | Some feeLamports =>
  let need := withdraw_need amountLamports feeLamports in
  let have := withdraw_have st in
  if lt have need
  then pushToast error
         ("Not enough SOL to cover amount + fee. Need ≈ " ++ needUi_text need
            ++ " SOL total.") None ;; exit
  else
  emit (ESetWdSending true) ;;
  (let failed := pushToast error "Withdraw failed. Please try again." None in
   emit EGetLatestBlockhash ;;
   or_else (w_send_blockhash w)
     (fun blockhash =>
        if transfer_accepts amountLamports then
          let tx := Transfer pk toPk amountLamports blockhash pk in
          emit (ESendTransaction tx) ;;
          or_else (w_sendTransaction w tx)
            (fun sig =>
               pushToast success "Withdrawal sent! View on Solscan."
                         (Some ("https://solscan.io/tx/" ++ sig)) ;;
               emit (ESetWdOpen false) ;;
               emit (ESetWdTo "") ;;
               emit (ESetWdSol "0.1") ;;
               emit (ESetWdFeeLamports None) ;;
               emit ERefreshBalances)
            failed
        else failed)
     failed) ;;
  emit (ESetWdSending false)
  end
  end
  end.

(** [refreshWithdrawFee], lines 493-506. *)
Definition refreshWithdrawFee (st : State) (w : World) : M unit :=
  emit (ESetWdFeeLamports None) ;;
  match publicKey st with
  | None => exit
  | Some _ =>
  let lam := lamports_of_input (wdSol st) in
  if invalid_amount lam then exit
  else
  match PublicKey_new (trim (wdTo st)) with
  | None => exit
  | Some pk =>
      emit (ESetWdEstimating true) ;;
      fee <- estimateSolTransferFee st w pk lam ;;
      emit (ESetWdFeeLamports fee) ;;
      emit (ESetWdEstimating false)
  end
  end.

(** The fee [sendWithdrawSol] works with: the stored estimate, or a new
    one. *)
Definition known_fee (st : State) (w : World) (toPk : PublicKey)
           (amountLamports : number) : option Q :=
  match wdFeeLamports st with
  | Some fee => Some fee
  | None =>
      match snd (estimateSolTransferFee st w toPk amountLamports) with
      | Some fee => fee
      | None => None
      end
  end.

(** *** doSwap *)

Definition minUiForMint (mintStr : string) : number :=
  if String.eqb mintStr SOL then binary64 (1 # 1000) else of_Z 1.

Definition bigIntIsZero (x : Z) : bool := Z.eqb x 0.

Definition nullish (v : value) : bool :=
  match v with JUndefined | JNull => true | _ => false end.

(** [tryFetchQuoteSafe(fetchQuote, { onError: (m) => pushToast('error', m), ... })] *)
Definition tryFetchQuoteSafe (w : World) : M value :=
  emit EFetchQuote ;;
  match w_fetchQuote w with
  | Fulfilled q => ret (if nullish q then JNull else q)
  | RejectedWith e =>
      pushToast error (quote_failure_text e) None ;;
      ret JNull
  end.

(** The outcome of [doSwap]: [Some e] when the promise it returns is
    rejected. *)
Definition doSwap (st : State) (w : World) : M (option Error) :=
  match publicKey st with
  | None => pushToast error "Connect your wallet first." None ;; exit
  | Some pk =>
  let uiAmount := parseFloat (or_zero (amountStr st)) in
  if negb (isFinite uiAmount) || le uiAmount (of_Z 0)
  then pushToast error "Enter an amount greater than 0." None ;; exit
  else
  let minUi := minUiForMint (inMintStr st) in
  if lt uiAmount minUi
  then pushToast error
         (if String.eqb (inMintStr st) SOL
          then "Amount too small. Try at least 0.001 SOL."
          else "Amount too small. Try at least 1 .") None ;; exit
  else
  if bigIntIsZero (amountAtomic st)
  then pushToast error "Amount resolves to 0 in base units. Increase it slightly." None ;;
       exit
  else
  if String.eqb (inMintStr st) (outMintStr st)
  then pushToast error "Select two different tokens." None ;; exit
  else
  pushToast info "Building route…" None ;;
  quote <- (if nullish (quoteResponseMeta st) then tryFetchQuoteSafe w
            else ret (quoteResponseMeta st)) ;;
  if negb (truthy quote) then exit
  else
  emit (EFetchSwapTransaction quote) ;;
  match w_fetchSwapTransaction w quote with
  | RejectedWith e => ret (Some e)
  | Fulfilled (inl _) =>
      pushToast error "Failed to build swap transaction. Try again." None ;; exit
  | Fulfilled (inr swapTransaction) =>
      let failed := pushToast error "Swap failed to send." None ;; ret None in
      emit (ESendTransaction (Prebuilt swapTransaction)) ;;
      or_else (w_sendTransaction w (Prebuilt swapTransaction))
        (fun txid =>
           emit (ESetLastTx txid) ;;
           emit (ESetShowModal true) ;;
           pushToast success "Swap sent! Click to view on Solscan."
                     (Some ("https://solscan.io/tx/" ++ txid)) ;;
           emit ERefresh ;;
           or_else (w_refresh w)
             (fun _ => emit ERefreshBalances ;; ret None)
             failed)
        failed
  end
  end.

(** *** The From and To selectors *)

(** The [<option>] values of the two [<select>] elements. *)
Definition fromOptions : list string := [SOL; TROLL].
Definition toOptions : list string := [TROLL; SOL].

Inductive action : Type :=
| ChooseFrom (v : string)
| ChooseTo (v : string)
| Flip.

(** What the user interface lets the user do. *)
Definition offered (a : action) : Prop :=
  match a with
  | ChooseFrom v => In v fromOptions
  | ChooseTo v => In v toOptions
  | Flip => True
  end.

(** [setInMintStr], [setOutMintStr] and [flip] on the pair
    [(inMintStr, outMintStr)]. *)
Definition select (sel : string * string) (a : action) : string * string :=
  match a with
  | ChooseFrom v => (v, snd sel)
  | ChooseTo v => (fst sel, v)
  | Flip => (snd sel, fst sel)
  end.

(** The selections the user can reach from the initial one,
    [useState(SOL)] and [useState(TROLL)]. *)
Inductive reachable : string * string -> Prop :=
| reach_init : reachable (SOL, TROLL)
| reach_step sel a : reachable sel -> offered a -> reachable (select sel a).

End SwapScreen.

(** A handler run that sends no transaction and shows an error toast. *)
Definition rejected {A : Type} (m : M A) : Prop :=
  existsb is_send (trace m) = false /\ existsb is_error_toast (trace m) = true.

(** Sample state and world. *)
Definition sample_parseFloat (s : string) : number :=
  if String.eqb s "0.1" then binary64 (1 # 10)
  else if String.eqb s "0.3" then binary64 (3 # 10)
  else if String.eqb s "0.00013" then binary64 (13 # 100000)
  else if String.eqb s "1e300" then binary64 (inject_Z (10 ^ 300))
  else if String.eqb s "0" then Fin 0
  else if String.eqb s "5" then Fin 5
  else if String.eqb s "Infinity" then PosInf
  else NaN.

(** The binary64 value nearest to [q], for the balances of the samples. *)
Definition sample_double (q : Q) : Q :=
  match binary64 q with
  | Fin r => r
  | _ => 0
  end.

(** [SystemProgram.transfer] as the samples have it: an amount that fits
    64 bits is encoded. *)
Definition sample_transfer_accepts (lamports : number) : bool :=
  lt lamports (of_Z (2 ^ 64)).

Definition sample_trim (s : string) : string := s.

Definition sample_PublicKey_new (s : string) : option PublicKey :=
  if String.eqb s "" then None else Some s.

Definition sample_needUi (n : number) : string := "0.104005".

Definition sample_failure_text (e : Error) : string :=
  "Quote failed: " ++ message e ++ " Please check your internet and try again.".

Definition sample_state : State :=
  mkState (Some "Wallet1111") "SOL" "TROLL" "0.1" 100000000 JUndefined
          (1 # 2) "Dest1111" "0.1" (Some (inject_Z 5000)).

(** The same state with one lamport less than the withdrawal needs. *)
Definition sample_state_short : State :=
  mkState (Some "Wallet1111") "SOL" "TROLL" "0.1" 100000000 JUndefined
          (sample_double (104004999 # 1000000000)) "Dest1111" "0.1"
          (Some (inject_Z 5000)).

Definition sample_state_same_mint : State :=
  mkState (Some "Wallet1111") "TROLL" "TROLL" "5" 5000000 JUndefined
          (1 # 2) "" "0.1" None.

Definition sample_state_bad_amount : State :=
  mkState (Some "Wallet1111") "SOL" "TROLL" "0.1" 100000000 JUndefined
          (1 # 2) "Dest1111" "abc" None.

Definition sample_world : World :=
  mkWorld (Fulfilled "blockhash1") (fun _ => Fulfilled (Some (inject_Z 5000)))
          (Fulfilled "blockhash2") (fun _ => Fulfilled "signature1")
          (Fulfilled sample_quote) (fun _ => Fulfilled (inr "swaptx1"))
          (Fulfilled tt).

End Page.

(** ** page.tsx: the account-change subscription effect (lines 695-723)

    The effect body is an async function: it runs up to an [await], is
    resumed later, and the cleanup returned by the effect may run between two
    resumptions.  A configuration holds the closure variables, the two refs
    and the log of what was done to the connection and the timers. *)
Module BalanceEffect.

Definition PublicKey : Type := Page.PublicKey.

Inductive fx : Type :=
| AddListener (id : nat) (account : PublicKey)
| SubscribeThrows (account : PublicKey)
| RemoveListener (id : nat)
| SetInterval (handle : positive) (ms : Z)
| ClearInterval (handle : positive)
| RefreshBalances.

(** Where the async body waits. *)
Inductive pc : Type :=
| AwaitSol (id : nat)
| AwaitRefresh
| AwaitTroll (id : nat)
| Done.

Record config : Type := mkConfig {
  at_pc : pc;
  solSubId : option nat;
  trollSubId : option nat;
  wsFailed : bool;
  fastPollRef : option positive;
  trollAcctRef : option PublicKey;
  log : list fx
}.

(** What the outside answers: the subscription ids ([None] when
    [onAccountChange] throws), the token account that [refreshBalances]
    leaves in [trollAcctRef], and the handle [setInterval] returns.  The
    log records a call of [onAccountChange] that throws as
    [SubscribeThrows]. *)
Record Answers : Type := mkAnswers {
  sol_subscription : option nat;
  troll_subscription : option nat;
  refreshed_account : option PublicKey;
  interval_handle : positive
}.

Definition set_pc (p : pc) (c : config) : config :=
  mkConfig p (solSubId c) (trollSubId c) (wsFailed c) (fastPollRef c)
           (trollAcctRef c) (log c).
Definition set_solSubId (i : option nat) (c : config) : config :=
  mkConfig (at_pc c) i (trollSubId c) (wsFailed c) (fastPollRef c)
           (trollAcctRef c) (log c).
Definition set_trollSubId (i : option nat) (c : config) : config :=
  mkConfig (at_pc c) (solSubId c) i (wsFailed c) (fastPollRef c)
           (trollAcctRef c) (log c).
Definition set_wsFailed (b : bool) (c : config) : config :=
  mkConfig (at_pc c) (solSubId c) (trollSubId c) b (fastPollRef c)
           (trollAcctRef c) (log c).
Definition set_fastPollRef (h : option positive) (c : config) : config :=
  mkConfig (at_pc c) (solSubId c) (trollSubId c) (wsFailed c) h
           (trollAcctRef c) (log c).
Definition set_trollAcctRef (a : option PublicKey) (c : config) : config :=
  mkConfig (at_pc c) (solSubId c) (trollSubId c) (wsFailed c) (fastPollRef c)
           a (log c).
Definition do_fx (e : fx) (c : config) : config :=
  mkConfig (at_pc c) (solSubId c) (trollSubId c) (wsFailed c) (fastPollRef c)
           (trollAcctRef c) (log c ++ [e]).

Section Effect.

Variable answers : Answers.

(** Lines 713-715, after the [try]. *)
Definition after_try (c : config) : config :=
  set_pc Done
    (match wsFailed c, fastPollRef c with
     | true, None =>
         set_fastPollRef (Some (interval_handle answers))
           (do_fx (SetInterval (interval_handle answers) 3000) c)
     | _, _ => c
     end).

(** Lines 706-708 and the [catch]. *)
Definition subscribe_troll (c : config) : config :=
  match trollAcctRef c with
  | Some account =>
      match troll_subscription answers with
      | Some id => set_pc (AwaitTroll id) (do_fx (AddListener id account) c)
      | None => after_try (set_wsFailed true (do_fx (SubscribeThrows account) c))
      end
  | None => after_try c
  end.

(** The effect: [None] when it returns at line 697 without a cleanup,
    otherwise the configuration in which the async body first waits. *)
Definition effect (WS : option string) (publicKey : option PublicKey)
           (fastPoll : option positive) (trollAcct : option PublicKey)
  : option config :=
  match WS, publicKey with
  | Some ws, Some pk =>
      if String.eqb ws "" then None
      else
        let c := mkConfig Done None None false fastPoll trollAcct [] in
        Some (match sol_subscription answers with
              | Some id => set_pc (AwaitSol id) (do_fx (AddListener id pk) c)
              | None => after_try (set_wsFailed true (do_fx (SubscribeThrows pk) c))
              end)
  | _, _ => None
  end.

(** The async body is resumed after an [await]. *)
Definition resume (c : config) : config :=
  match at_pc c with
  | AwaitSol id =>
      let c := set_solSubId (Some id) c in
      match trollAcctRef c with
      | None => set_pc AwaitRefresh (do_fx RefreshBalances c)
      | Some _ => subscribe_troll c
      end
  | AwaitRefresh =>
      subscribe_troll (set_trollAcctRef (refreshed_account answers) c)
  | AwaitTroll id => after_try (set_trollSubId (Some id) c)
  | Done => c
  end.

(** The cleanup function, lines 718-722. *)
Definition cleanup (c : config) : config :=
  let c := match solSubId c with
           | Some id => do_fx (RemoveListener id) c
           | None => c
           end in
  let c := match trollSubId c with
           | Some id => do_fx (RemoveListener id) c
           | None => c
           end in
  match fastPollRef c with
  | Some h => set_fastPollRef None (do_fx (ClearInterval h) c)
  | None => c
  end.

(** Every configuration the effect can be in: the body is resumed step by
    step, and the cleanup may come in between. *)
Inductive reachable (c0 : config) : config -> Prop :=
| reach_start : reachable c0 c0
| reach_resume c : reachable c0 c -> reachable c0 (resume c)
| reach_cleanup c : reachable c0 c -> reachable c0 (cleanup c).

(** The body run to its end: at most three resumptions. *)
Definition finish (c : config) : config := resume (resume (resume c)).

(** The body resumed [n] times with no cleanup in between. *)
Fixpoint run (n : nat) (c : config) : config :=
  match n with
  | O => c
  | S n => resume (run n c)
  end.

End Effect.











Definition sample_working : Answers :=
  mkAnswers (Some 7%nat) (Some 8%nat) (Some "TrollAcct11") 41%positive.


End BalanceEffect.

(** ** route.ts: what the upstream request and the success path carry *)
Module RouteMore.

Import Route.

(** A header name that is none of the three forwarded ones. *)
Definition not_forwarded (name : string) : bool :=
  forallb (fun k => negb (Headers.same_name k name)) forwardHeaders.


(** The methods for which the handler does not read the request body. *)
Definition bodyless (method : string) : bool :=
  (String.eqb method "GET" || String.eqb method "HEAD" || String.eqb method "OPTIONS")%bool.

Fixpoint ends_with_slash (s : string) : bool :=
  match s with
  | EmptyString => false
  | String c EmptyString => Ascii.eqb c "/"
  | String _ r => ends_with_slash r
  end.

Definition sample_cookie_request : NextRequest :=
  mkRequest "POST" [("a", "1"); ("a", "2")]
            [("Cookie", "session=1"); ("Authorization", "Bearer t");
             ("Accept", "text/plain"); ("X-Forwarded-For", "10.0.0.1")] "{}".


End RouteMore.

(** ** page.tsx: the fetch patch (lines 41-101)

    [window.fetch] is replaced by a function that rewrites the URLs of the
    legacy quote API and hands everything else on.  A fetch function is
    modelled by the arguments with which it finally calls the browser's own
    fetch. *)
Module FetchPatch.

Definition DEFAULT_QUOTE_BASE : string := "/api/jupiter".
Definition JUPITER_LEGACY_BASE : string := "https://lite-api.jup.ag/swap/v1".

(** [s.slice(n)] *)
Fixpoint slice (n : nat) (s : string) : string :=
  match n, s with
  | O, _ => s
  | S n', String _ r => slice n' r
  | S _, EmptyString => EmptyString
  end.

(** [/^https?:\/\//i.test(s)] *)
Definition is_absolute_http (s : string) : bool :=
  (String.prefix "http://" (lower s) || String.prefix "https://" (lower s))%bool.

(** [(process.env.NEXT_PUBLIC_JUPITER_QUOTE_URL ?? DEFAULT_QUOTE_BASE).replace(/\/$/, '')] *)
Definition JUPITER_QUOTE_API (env : option string) : string :=
  strip_trailing_slash (match env with Some u => u | None => DEFAULT_QUOTE_BASE end).

Section Patch.

(** The properties of a request other than its URL, method and body, which
    the patch copies as they are: headers, credentials, cache, redirect,
    referrer, referrerPolicy, integrity, mode, keepalive, signal. *)
Variable Others : Type.

Record RequestInit : Type := mkInit {
  ri_method : option string;
  ri_body : option string;
  ri_others : Others
}.

Record Request : Type := mkRequestObject {
  rq_url : string;
  rq_method : string;
  rq_body : option string;
  rq_others : Others
}.

Inductive fetch_input : Type :=
| InString (url : string)
| InURL (href : string)
| InRequest (request : Request).

(** The arguments of a call of the browser's fetch. *)
Record Call : Type := mkCall {
  call_input : fetch_input;
  call_init : option RequestInit
}.

Definition Fetch : Type := fetch_input -> option RequestInit -> Call.

Definition native_fetch : Fetch := mkCall.

Record Window : Type := mkWindow {
  origin : string;
  fetch : Fetch;
  jupiterQuotePatched : bool
}.

Definition legacy : string := strip_trailing_slash JUPITER_LEGACY_BASE.

Definition targetBase (env : option string) (w : Window) : string :=
  if is_absolute_http (JUPITER_QUOTE_API env)
  then strip_trailing_slash (JUPITER_QUOTE_API env)
  else strip_trailing_slash (origin w ++ JUPITER_QUOTE_API env).

Definition rewrite (env : option string) (w : Window) (url : string) : string :=
  targetBase env w ++ slice (String.length legacy) url.

(** [!nextInit.method] *)
Definition no_method (i : RequestInit) : bool :=
  match ri_method i with
  | None => true
  | Some m => String.eqb m ""
  end.

(** The function assigned to [window.fetch], lines 61-94. *)
Definition patched_fetch (env : option string) (w : Window) : Fetch :=
  let originalFetch := fetch w in
  fun input init =>
    match input with
    | InString url =>
        if String.prefix legacy url
        then originalFetch (InString (rewrite env w url)) init
        else originalFetch input init
    | InURL href =>
        if String.prefix legacy href
        then originalFetch (InString (rewrite env w href)) init
        else originalFetch input init
    | InRequest request =>
        if String.prefix legacy (rq_url request)
        then
          let nextInit :=
            match init with
            | Some i => i
            | None => mkInit (Some (rq_method request)) None (rq_others request)
            end in
          let nextInit :=
            if no_method nextInit
            then mkInit (Some (rq_method request)) (ri_body nextInit) (ri_others nextInit)
            else nextInit in
          originalFetch (InString (rewrite env w (rq_url request))) (Some nextInit)
        else originalFetch input init
    end.

(** [patchJupiterQuoteEndpoint]; [None] is the server, where [window] is
    undefined. *)
Definition patchJupiterQuoteEndpoint (env : option string) (w : option Window)
  : option Window :=
  match w with
  | None => None
  | Some w =>
      if jupiterQuotePatched w then Some w
      else Some (mkWindow (origin w) (patched_fetch env w) true)
  end.

End Patch.

Arguments mkInit {Others}.
Arguments ri_method {Others}.
Arguments ri_body {Others}.
Arguments ri_others {Others}.
Arguments mkRequestObject {Others}.
Arguments rq_url {Others}.
Arguments rq_method {Others}.
Arguments rq_body {Others}.
Arguments rq_others {Others}.
Arguments InString {Others}.
Arguments InURL {Others}.
Arguments InRequest {Others}.
Arguments mkCall {Others}.
Arguments call_input {Others}.
Arguments call_init {Others}.
Arguments native_fetch {Others}.
Arguments mkWindow {Others}.
Arguments origin {Others}.
Arguments fetch {Others}.
Arguments jupiterQuotePatched {Others}.
Arguments targetBase {Others}.
Arguments rewrite {Others}.
Arguments patched_fetch {Others}.
Arguments patchJupiterQuoteEndpoint {Others}.

(** A browser window that has not been patched. *)
Definition sample_window : Window unit :=
  mkWindow "https://trollswap.example" native_fetch false.

Definition sample_post_request : Request unit :=
  mkRequestObject "https://lite-api.jup.ag/swap/v1/swap" "POST" (Some "{}") tt.

End FetchPatch.

(** ** page.tsx: the toast list (lines 578-590)

    [toastIdRef] counts up from 1; a toast leaves the list when the user
    dismisses it or when its 4500 ms timer fires, both by filtering on the
    id.  The pending timers are part of the state, so that a timer fires
    only if it was set and at most once.  Ids are natural numbers: the
    counter is taken not to reach 2^53. *)

From Stdlib Require Import Sorted.

Module Toasts.

Record Toast : Type := mkToast {
  id : nat;
  kind : Page.ToastKind;
  message : string;
  href : option string
}.

(** [setTimeout(..., ms)] for the toast [timer_id]. *)
Record Timer : Type := mkTimer {
  timer_id : nat;
  timer_ms : Z
}.

Record ToastState : Type := mkToastState {
  toasts : list Toast;
  toastIdRef : nat;
  timers : list Timer
}.

(** [useState<Toast[]>([])], [useRef(1)], no timer set. *)
Definition initial : ToastState := mkToastState [] 1 [].

(** [t.filter((x) => x.id !== id)] *)
Definition without (i : nat) (l : list Toast) : list Toast :=
  filter (fun x => negb (Nat.eqb (id x) i)) l.

Definition pushToast (st : ToastState) (k : Page.ToastKind) (m : string)
           (h : option string) : ToastState :=
  let i := toastIdRef st in
  mkToastState (toasts st ++ [mkToast i k m h])%list (S i)
               (timers st ++ [mkTimer i 4500])%list.

Definition dismissToast (st : ToastState) (i : nat) : ToastState :=
  mkToastState (without i (toasts st)) (toastIdRef st) (timers st).

Definition pending (st : ToastState) (i : nat) : bool :=
  existsb (fun t => Nat.eqb (timer_id t) i) (timers st).

(** The timer of toast [i] fires: its callback filters the list. *)
Definition expire (st : ToastState) (i : nat) : ToastState :=
  if pending st i
  then mkToastState (without i (toasts st)) (toastIdRef st)
                    (filter (fun t => negb (Nat.eqb (timer_id t) i)) (timers st))
  else st.

Inductive op : Type :=
| Push (k : Page.ToastKind) (m : string) (h : option string)
| Dismiss (i : nat)
| Expire (i : nat).

Definition step (st : ToastState) (o : op) : ToastState :=
  match o with
  | Push k m h => pushToast st k m h
  | Dismiss i => dismissToast st i
  | Expire i => expire st i
  end.

Definition run (ops : list op) : ToastState := fold_left step ops initial.

(** The ids of the toasts on screen, in the order of the list. *)
Definition ids (st : ToastState) : list nat := map id (toasts st).

(** What holds of every state of the toast list: the ids on screen increase
    strictly and lie between 1 and the counter. *)
Definition ordered (st : ToastState) : Prop :=
  StronglySorted lt (ids st) /\
  Forall (fun i => (1 <= i < toastIdRef st)%nat) (ids st) /\
  (1 <= toastIdRef st)%nat.

(** Every toast on screen has its timer pending. *)
Definition timed (st : ToastState) : Prop :=
  forall t, In t (toasts st) -> In (mkTimer (id t) 4500) (timers st).

Definition sample_ops : list op :=
  [Push Page.info "Building route" None; Push Page.error "Swap failed to send." None;
   Expire 1%nat; Push Page.success "Swap sent!" (Some "https://solscan.io/tx/s");
   Dismiss 1%nat].

End Toasts.

(** ** More of JavaScript's numbers

    As in [Js], zero has no sign, so a zero divisor counts as +0; a quotient
    is rounded to binary64, [Math.min] and [Math.round] are exact. *)
Module JsMath.

Import Js.

(** [Math.min(a, b)] *)
Definition min (a b : number) : number :=
  match a, b with
  | NaN, _ | _, NaN => NaN
  | NegInf, _ | _, NegInf => NegInf
  | PosInf, x | x, PosInf => x
  | Fin p, Fin q => if Qle_bool p q then Fin p else Fin q
  end.

(** [-a] *)
Definition neg (a : number) : number :=
  match a with
  | NaN => NaN
  | PosInf => NegInf
  | NegInf => PosInf
  | Fin q => Fin (- q)
  end.

(** [a - b] *)
Definition sub (a b : number) : number := add a (neg b).

(** [a / b] *)
Definition div (a b : number) : number :=
  match a, b with
  | NaN, _ | _, NaN => NaN
  | Fin p, Fin q => if Qeq_bool q 0 then scale_inf true p else binary64 (p / q)
  | Fin _, _ => of_Z 0
  | PosInf, Fin q => if Qltb q 0 then NegInf else PosInf
  | NegInf, Fin q => if Qltb q 0 then PosInf else NegInf
  | _, _ => NaN
  end.

(** [Math.round]: halves go up. *)
Definition round (a : number) : number :=
  match a with
  | Fin q => of_Z (Qfloor (q + (1 # 2)))
  | other => other
  end.

End JsMath.

(** ** page.tsx: the amount field and the percent it sets
    (lines 108-110, 975-983) *)
Module Amounts.

Import Js JsMath.

(** [clamp] (lines 108-110) *)
Definition clamp (n min max : number) : number :=
  JsMath.min max (Js.max min n).

Section Input.

Variable SOL : string.
Variable parseFloat : string -> number.

(** [inMintStr === SOL ? Math.max(0, solBalance - SOL_FEE_BUFFER) : trollBalance] *)
Definition base (inMintStr : string) (solBalance trollBalance : number) : number :=
  if String.eqb inMintStr SOL
  then Js.max (of_Z 0) (sub solBalance Page.SOL_FEE_BUFFER)
  else trollBalance.

(** The percent that typing into the amount field sets (lines 977-982). *)
Definition typed_percent (text inMintStr : string) (solBalance trollBalance : number)
  : number :=
  let v := parseFloat (Page.or_zero text) in
  let base := base inMintStr solBalance trollBalance in
  let p := if lt (of_Z 0) base
           then clamp (mul (div v base) (of_Z 100)) (of_Z 0) (of_Z 100)
           else of_Z 0 in
  round p.

End Input.

End Amounts.

(** ** page.tsx: refreshBalances (lines 597-654)

    The RPC client is a record of how each call settles; the function
    returns the store it leaves and the calls it made, in order.  A state
    setter and the assignment to [trollAcctRef.current] both act on the
    store. *)
Module Balances.

Import Js JsMath.

Definition PublicKey : Type := Page.PublicKey.

(** An element of [resp.value]; the code reads [acct.account.data] as
    [unknown]. *)
Record TokenAccount : Type := mkTokenAccount {
  pubkey : PublicKey;
  account_data : value
}.

Record Store : Type := mkStore {
  solBalance : number;
  trollBalance : number;
  trollDecimals : number;
  trollAcctRef : option PublicKey
}.

Inductive call : Type :=
| GetBalance (owner : PublicKey)
| GetParsedAccountInfo
| GetTokenAccountsByOwner (owner : PublicKey)
| GetTokenAccountBalance (account : PublicKey).

(** [getTokenAccountBalance] answers with [value.uiAmount : number | null]. *)
Record Rpc : Type := mkRpc {
  getBalance : Page.rpc number;
  getParsedAccountInfo : Page.rpc value;
  getTokenAccountsByOwner : Page.rpc (list TokenAccount);
  getTokenAccountBalance : PublicKey -> Page.rpc (option number)
}.

(** Lines 625-639: [uiAmount], [None] for [null]. *)
Definition parsed_uiAmount (dataUnknown : value) : completion (option number) :=
  if negb (truthy dataUnknown) then Normal None
  else if negb (is_object_type dataUnknown) then Normal None
  else match has_prop "parsed" dataUnknown with
  | TypeError => TypeError
  | Normal false => Normal None
  | Normal true =>
      match get_prop dataUnknown "parsed" with
      | TypeError => TypeError
      | Normal parsed =>
          match get_prop_opt (get_prop_opt (get_prop_opt parsed "info") "tokenAmount")
                             "uiAmount" with
          | JNumber maybe => Normal (Some maybe)
          | _ => Normal None
          end
      end
  end.

(** [bal?.value?.uiAmount ?? 0], [bal] being null when the call rejects. *)
Definition fallback_balance (bal : Page.rpc (option number)) : number :=
  match bal with
  | Page.Fulfilled (Some uiAmount) => uiAmount
  | _ => of_Z 0
  end.

Definition set_solBalance (n : number) (s : Store) : Store :=
  mkStore n (trollBalance s) (trollDecimals s) (trollAcctRef s).
Definition set_trollBalance (n : number) (s : Store) : Store :=
  mkStore (solBalance s) n (trollDecimals s) (trollAcctRef s).
Definition set_trollDecimals (n : number) (s : Store) : Store :=
  mkStore (solBalance s) (trollBalance s) n (trollAcctRef s).
Definition set_trollAcctRef (a : option PublicKey) (s : Store) : Store :=
  mkStore (solBalance s) (trollBalance s) (trollDecimals s) a.

Definition refreshBalances (publicKey : option PublicKey) (r : Rpc) (s : Store)
  : Store * list call :=
  match publicKey with
  | None => (set_trollAcctRef None (set_trollBalance (of_Z 0) (set_solBalance (of_Z 0) s)), [])
  | Some pk =>
      match getBalance r with
      | Page.RejectedWith _ => (s, [GetBalance pk])
      | Page.Fulfilled lamports =>
          let s := set_solBalance (div lamports (of_Z 1000000000)) s in
          match Page.getMintDecimals (getParsedAccountInfo r) with
          | Page.Throws _ | Page.ThrowsTypeError =>
              (s, [GetBalance pk; GetParsedAccountInfo])
          | Page.Returns dec =>
              let s := set_trollDecimals dec s in
              let calls := [GetBalance pk; GetParsedAccountInfo;
                            GetTokenAccountsByOwner pk] in
              match getTokenAccountsByOwner r with
              | Page.RejectedWith _ => (s, calls)
              | Page.Fulfilled [] =>
                  (set_trollBalance (of_Z 0) (set_trollAcctRef None s), calls)
              | Page.Fulfilled (acct :: _) =>
                  let s := set_trollAcctRef (Some (pubkey acct)) s in
                  match parsed_uiAmount (account_data acct) with
                  | TypeError => (s, calls)
                  | Normal (Some uiAmount) => (set_trollBalance uiAmount s, calls)
                  | Normal None =>
                      (set_trollBalance
                         (fallback_balance (getTokenAccountBalance r (pubkey acct))) s,
                       (calls ++ [GetTokenAccountBalance (pubkey acct)])%list)
                  end
              end
          end
      end
  end.

(** The subscription effect of [BalanceEffect] with its call of
    [refreshBalances] answered by this one. *)
Definition answers (sol_subscription troll_subscription : option nat)
           (interval_handle : positive) (pk : PublicKey) (r : Rpc) (s : Store)
  : BalanceEffect.Answers :=
  BalanceEffect.mkAnswers sol_subscription troll_subscription
    (trollAcctRef (fst (refreshBalances (Some pk) r s))) interval_handle.

Definition sample_store : Store := mkStore (of_Z 0) (of_Z 0) (of_Z 9) None.

Definition sample_rpc : Rpc :=
  mkRpc (Page.Fulfilled (of_Z 2000000000))
        (Page.Fulfilled JNull)
        (Page.Fulfilled [mkTokenAccount "TrollAcct11" (JBuffer "raw");
                         mkTokenAccount "TrollAcct22" (JBuffer "raw")])
        (fun _ => Page.Fulfilled (Some (of_Z 5))).

Definition sample_rpc_down : Rpc :=
  mkRpc (Page.Fulfilled (of_Z 2000000000))
        (Page.Fulfilled JNull)
        (Page.RejectedWith (mkError "429"))
        (fun _ => Page.Fulfilled (Some (of_Z 5))).

End Balances.

(** ** page.tsx: what the handlers leave behind

    Predicates on the events of a handler run, the form state after the
    setters of a run have been applied, and the big integer of the
    [useMemo] at lines 747-751. *)
Module PageMore.

Import Js Page.

Definition is_toast (e : event) : bool :=
  match e with EToast _ _ _ => true | _ => false end.

Definition is_success_toast (e : event) : bool :=
  match e with EToast success _ _ => true | _ => false end.

(** The two RPC queries of [estimateSolTransferFee]. *)
Definition is_rpc_query (e : event) : bool :=
  match e with EGetLatestBlockhash | EGetFeeForMessage _ => true | _ => false end.

Definition is_fee_query (e : event) : bool :=
  match e with EGetFeeForMessage _ => true | _ => false end.

(** A call of [setWdSending]. *)
Definition is_flag (e : event) : bool :=
  match e with ESetWdSending _ => true | _ => false end.

(** A trace cut at the first [setWdSending(true)]: what comes before it,
    and what comes after it up to the last event. *)
Fixpoint before_raise (t : list event) : list event :=
  match t with
  | [] => []
  | ESetWdSending true :: _ => []
  | e :: r => e :: before_raise r
  end.

Fixpoint after_raise (t : list event) : list event :=
  match t with
  | [] => []
  | ESetWdSending true :: r => removelast r
  | _ :: r => after_raise r
  end.

(** A state setter of the withdraw form acts on the state. *)
Definition set_state (st : State) (e : event) : State :=
  match e with
  | ESetWdTo s =>
      mkState (publicKey st) (inMintStr st) (outMintStr st) (amountStr st)
              (amountAtomic st) (quoteResponseMeta st) (solBalance st)
              s (wdSol st) (wdFeeLamports st)
  | ESetWdSol s =>
      mkState (publicKey st) (inMintStr st) (outMintStr st) (amountStr st)
              (amountAtomic st) (quoteResponseMeta st) (solBalance st)
              (wdTo st) s (wdFeeLamports st)
  | ESetWdFeeLamports fee =>
      mkState (publicKey st) (inMintStr st) (outMintStr st) (amountStr st)
              (amountAtomic st) (quoteResponseMeta st) (solBalance st)
              (wdTo st) (wdSol st) fee
  | _ => st
  end.

(** The state once the setters of a run have taken effect. *)
Definition settle (t : list event) (st : State) : State := fold_left set_state t st.

(** The time a run of [fetchQuoteWithRetry] spends waiting. *)
Definition total_wait (t : list retry_event) : Z :=
  fold_right (fun e acc => match e with Sleep ms => ms + acc | CallFetch _ => acc end) 0 t.

(** [Math.floor((Number.isFinite(n) && n > 0 ? n : 0) * 10 ** inputDecimals)]
    with [n = Number.parseFloat(amountStr || '0')]; [scale] is the power
    [10 ** inputDecimals]. *)
Definition atomic_amount (parseFloat : string -> number) (amountStr : string)
           (scale : number) : number :=
  let n := parseFloat (or_zero amountStr) in
  floor (mul (if isFinite n && lt (of_Z 0) n then n else of_Z 0) scale).

(** Sample worlds: no route; the transaction cannot be built; the refresh
    after the send fails. *)
Definition sample_world_no_route : World :=
  mkWorld (Fulfilled "blockhash1") (fun _ => Fulfilled (Some (inject_Z 5000)))
          (Fulfilled "blockhash2") (fun _ => Fulfilled "signature1")
          (Fulfilled JNull) (fun _ => Fulfilled (inr "swaptx1"))
          (Fulfilled tt).

Definition sample_world_build_rejects : World :=
  mkWorld (Fulfilled "blockhash1") (fun _ => Fulfilled (Some (inject_Z 5000)))
          (Fulfilled "blockhash2") (fun _ => Fulfilled "signature1")
          (Fulfilled sample_quote) (fun _ => RejectedWith (mkError "500"))
          (Fulfilled tt).

Definition sample_world_refresh_fails : World :=
  mkWorld (Fulfilled "blockhash1") (fun _ => Fulfilled (Some (inject_Z 5000)))
          (Fulfilled "blockhash2") (fun _ => Fulfilled "signature1")
          (Fulfilled sample_quote) (fun _ => Fulfilled (inr "swaptx1"))
          (RejectedWith (mkError "refresh")).

(** The sample state with the quote of the hook already there. *)
Definition sample_state_cached : State :=
  mkState (Some "Wallet1111") "SOL" "TROLL" "0.1" 100000000 sample_quote
          (1 # 2) "Dest1111" "0.1" None.

End PageMore.

(** ** A cross-check of the rounding

    The binary64 operations of the Standard Library's [SpecFloat], read as
    numbers, on sample operands. *)

From Stdlib Require Import SpecFloat.

Module Binary64Check.

Import Js.

Definition of_spec (x : spec_float) : number :=
  match x with
  | S754_zero _ => Fin 0
  | S754_infinity false => PosInf
  | S754_infinity true => NegInf
  | S754_nan => NaN
  | S754_finite s m e =>
      let v := if 0 <=? e then inject_Z (Zpos m * 2 ^ e)
               else Qred (Zpos m # Z.to_pos (2 ^ (- e))) in
      Fin (if s then (- v)%Q else v)
  end.

(** The binary64 value nearest to [z * 2^e]. *)
Definition spec64 (z e : Z) : spec_float := binary_normalize 53 1024 z e false.

Definition same (a b : number) : bool :=
  match a, b with
  | NaN, NaN | PosInf, PosInf | NegInf, NegInf => true
  | Fin p, Fin q => Qeq_bool p q
  | _, _ => false
  end.

(** 0.3, 0.004 and balances times 1e9; the largest finite value times 1.5
    and times itself; the smallest subnormal value halved; a negative
    operand; 1 and 3; 2^53 and 1. *)
Definition operands : list (spec_float * spec_float) :=
  [ (spec64 5404319552844595 (-54), spec64 1000000000 0);
    (spec64 4611686018427388 (-60), spec64 1000000000 0);
    (spec64 11817500 0, spec64 1000000000 0);
    (spec64 104004999 0, spec64 1000000000 0);
    (spec64 (2 ^ 53 - 1) 971, spec64 3 (-1));
    (spec64 (2 ^ 53 - 1) 971, spec64 (2 ^ 53 - 1) 971);
    (spec64 1 (-1074), spec64 1 (-1));
    (spec64 3 (-1074), spec64 1 (-1));
    (spec64 (-7) (-3), spec64 1234567 5);
    (spec64 1 0, spec64 3 0);
    (spec64 (2 ^ 53) 0, spec64 1 0) ].

Definition agree (op : number -> number -> number)
           (sop : spec_float -> spec_float -> spec_float) : bool :=
  forallb (fun ab =>
             same (op (of_spec (fst ab)) (of_spec (snd ab)))
                  (of_spec (sop (fst ab) (snd ab)))
             && same (op (of_spec (snd ab)) (of_spec (fst ab)))
                     (of_spec (sop (snd ab) (fst ab))))
          operands.

End Binary64Check.

(** * Theorems *)

(** ** Header lists *)
Module HeadersFacts.

Import Headers.

Lemma same_name_true (a b : string) : same_name a b = true <-> lower a = lower b.
Proof. unfold same_name. apply String.eqb_eq. Qed.

Lemma same_name_false (a b : string) : same_name a b = false <-> lower a <> lower b.
Proof. unfold same_name. apply String.eqb_neq. Qed.

(** Two names that denote the same header select the same entries. *)
Lemma is_name_congr (k k' : string) (e : string * string) :
  same_name k k' = true -> is_name k' e = is_name k e.
Proof.
  unfold is_name, same_name. intros H. apply String.eqb_eq in H.
  now rewrite H.
Qed.

Lemma is_name_other (k k' : string) (e : string * string) :
  same_name k k' = false -> is_name k e = true -> is_name k' e = false.
Proof.
  unfold is_name. intros Hkk He.
  apply same_name_true in He. apply same_name_false.
  apply same_name_false in Hkk. congruence.
Qed.

Lemma values_delete_same (h : t) (k k' : string) :
  same_name k k' = true -> values (delete h k) k' = [].
Proof.
  intros Hk. unfold values, delete.
  induction h as [|e r IH]; simpl; [reflexivity|].
  destruct (is_name k e) eqn:He; simpl; [exact IH|].
  rewrite (is_name_congr k k' e Hk), He. exact IH.
Qed.

Lemma values_delete_other (h : t) (k k' : string) :
  same_name k k' = false -> values (delete h k) k' = values h k'.
Proof.
  intros Hk. unfold values, delete.
  induction h as [|e r IH]; simpl; [reflexivity|].
  destruct (is_name k e) eqn:He; simpl.
  - rewrite (is_name_other k k' e Hk He). exact IH.
  - destruct (is_name k' e); simpl; now rewrite IH.
Qed.

Lemma lower_idempotent (k : string) : lower (lower k) = lower k.
Proof.
  induction k as [|c k IH]; simpl; [reflexivity|].
  f_equal; [|exact IH].
  unfold lower_ascii.
  destruct (Nat.leb 65 (nat_of_ascii c) && Nat.leb (nat_of_ascii c) 90)%bool eqn:Hc;
    [|now rewrite Hc].
  apply andb_true_iff in Hc. destruct Hc as [H1 H2].
  apply Nat.leb_le in H1, H2.
  rewrite nat_ascii_embedding by lia.
  replace (Nat.leb (nat_of_ascii c + 32) 90) with false;
    [now rewrite andb_false_r|].
  symmetry. apply Nat.leb_gt. lia.
Qed.

Lemma values_set_same (h : t) (k k' v : string) :
  same_name k k' = true -> values (set h k v) k' = [v].
Proof.
  intros Hk. induction h as [|e r IH]; simpl.
  - unfold values. simpl. unfold is_name. simpl.
    replace (same_name (lower k) k') with true; [reflexivity|].
    symmetry. apply same_name_true. rewrite lower_idempotent.
    now apply same_name_true.
  - destruct (is_name k e) eqn:He.
    + unfold values in *. simpl.
      replace (is_name k' (fst e, v)) with true.
      * simpl. f_equal. apply (values_delete_same r k k' Hk).
      * symmetry. rewrite (is_name_congr k k' _ Hk). exact He.
    + unfold values in *. simpl.
      rewrite (is_name_congr k k' e Hk), He. exact IH.
Qed.

Lemma values_set_other (h : t) (k k' v : string) :
  same_name k k' = false -> values (set h k v) k' = values h k'.
Proof.
  intros Hk. induction h as [|e r IH]; simpl.
  - unfold values. simpl. unfold is_name. simpl.
    replace (same_name (lower k) k') with false; [reflexivity|].
    symmetry. apply same_name_false. rewrite lower_idempotent.
    now apply same_name_false.
  - destruct (is_name k e) eqn:He.
    + unfold values in *. simpl.
      replace (is_name k' (fst e, v)) with false.
      * rewrite (is_name_other k k' e Hk He).
        apply (values_delete_other r k k' Hk).
      * symmetry. apply (is_name_other k k' (fst e, v) Hk). exact He.
    + unfold values in *. simpl.
      destruct (is_name k' e); simpl; now rewrite IH.
Qed.

Lemma get_set_same (h : t) (k k' v : string) :
  same_name k k' = true -> get (set h k v) k' = Some v.
Proof. intros Hk. unfold get. now rewrite (values_set_same h k k' v Hk). Qed.

Lemma get_set_other (h : t) (k k' v : string) :
  same_name k k' = false -> get (set h k v) k' = get h k'.
Proof. intros Hk. unfold get. now rewrite (values_set_other h k k' v Hk). Qed.


Lemma get_delete_other (h : t) (k k' : string) :
  same_name k k' = false -> get (delete h k) k' = get h k'.
Proof. intros Hk. unfold get. now rewrite (values_delete_other h k k' Hk). Qed.

Lemma has_get (h : t) (k : string) : has h k = false <-> get h k = None.
Proof.
  unfold has, get, values.
  induction h as [|e r IH]; simpl; [tauto|].
  destruct (is_name k e); simpl; [split; discriminate|exact IH].
Qed.

End HeadersFacts.

(** ** The proxy routes *)
Module RouteFacts.

Import Route HeadersFacts.

Lemma applyCors_unfold (h : Headers.t) :
  applyCors h =
  Headers.set
    (Headers.set
       (Headers.set
          (Headers.set h "Access-Control-Allow-Origin" "*")
          "Access-Control-Allow-Methods" "GET,POST,OPTIONS")
       "Access-Control-Allow-Headers" "Content-Type, Authorization, X-Requested-With")
    "Access-Control-Max-Age" "86400".
Proof. reflexivity. Qed.

Ltac header_names :=
  repeat first
    [ rewrite get_delete_other by reflexivity
    | rewrite get_set_other by reflexivity
    | rewrite get_set_same by reflexivity ].

Lemma applyCors_get (h : Headers.t) :
  Headers.get (applyCors h) "Access-Control-Allow-Origin" = Some "*" /\
  Headers.get (applyCors h) "Access-Control-Allow-Methods" = Some "GET,POST,OPTIONS" /\
  Headers.get (applyCors h) "Access-Control-Allow-Headers"
    = Some "Content-Type, Authorization, X-Requested-With" /\
  Headers.get (applyCors h) "Access-Control-Max-Age" = Some "86400".
Proof. rewrite applyCors_unfold. repeat split; now header_names. Qed.


Lemma strip_keeps_cors (h : Headers.t) :
  carries_cors (mkResponse None 0 "" h) ->
  carries_cors (mkResponse None 0 "" (strip_length_and_encoding h)).
Proof.
  unfold carries_cors, strip_length_and_encoding. simpl.
  intros (H1 & H2 & H3 & H4). repeat split; now header_names.
Qed.

Lemma carries_cors_headers (r r' : Response) :
  headers r = headers r' -> carries_cors r -> carries_cors r'.
Proof. unfold carries_cors. now intros ->. Qed.

Lemma proxy_failed_cors (platform : Platform) (e : thrown) :
  carries_cors (proxy_failed platform e).
Proof. unfold carries_cors, proxy_failed. simpl headers. apply applyCors_get. Qed.

(** A response that the constructor builds has the headers, the body and
    the status text it was given. *)
Lemma Response_new_built (platform : Platform) (b : option string) (st : Z)
      (tx : string) (h : Headers.t) (r : Response) :
  Response_new platform b st tx h = Built r ->
  headers r = h /\ body r = b /\ statusText r = tx /\ status r = st mod 65536.
Proof.
  unfold Response_new.
  destruct ((st mod 65536 <? 200) || (599 <? st mod 65536))%bool; [discriminate|].
  destruct (negb (reason_phrase tx)); [discriminate|].
  destruct b as [x|]; [destruct (null_body_status (st mod 65536)); [discriminate|]|];
    intros [= <-]; repeat split.
Qed.

Lemma or_failed_cors (platform : Platform) (b : option string) (st : Z)
      (tx : string) (h : Headers.t) :
  carries_cors (mkResponse None 0 "" h) ->
  carries_cors (or_failed platform (Response_new platform b st tx h)).
Proof.
  intros Hh. destruct (Response_new platform b st tx h) as [r|e] eqn:E; simpl.
  - apply Response_new_built in E. destruct E as (E & _).
    apply (carries_cors_headers (mkResponse None 0 "" h)); [now rewrite E|exact Hh].
  - apply proxy_failed_cors.
Qed.

(** C1. Every response of the route in route.ts carries the four CORS
    headers with their configured values: the responses of GET and POST,
    whether the upstream answers below 400, answers from 400 on, or the
    fetch throws, and the response of OPTIONS. *)
Theorem C1_cors_on_every_response
  (env : option string) (platform : Platform)
  (h : handler) (fetch : UpstreamRequest -> fetch_outcome)
  (request : NextRequest) (params : RouteParams) :
  carries_cors (handle env platform h fetch request params).
Proof.
  assert (Hproxy : carries_cors (proxy env platform fetch request params)).
  { unfold proxy.
    destruct (fetch (upstream_request env request params)) as [up|e].
    - destruct (400 <=? ur_status up).
      + apply or_failed_cors.
        apply (strip_keeps_cors (applyCors (ur_headers up))).
        exact (applyCors_get (ur_headers up)).
      + apply or_failed_cors. exact (applyCors_get (ur_headers up)).
    - apply proxy_failed_cors. }
  destruct h; simpl; try exact Hproxy.
  exact (applyCors_get Headers.empty).
Qed.















(** C9. The upstream request is a function of the method, the path
    segments, the query parameters, the body and the three forwarded
    headers: two requests that agree on these give the same upstream
    request, whatever their other headers; and a request without an accept
    header is forwarded with accept: application/json. *)
Theorem C9_upstream_request_depends_on_whitelist
  (env : option string) (params : RouteParams) :
  (forall r1 r2 : NextRequest,
      req_method r1 = req_method r2 ->
      req_searchParams r1 = req_searchParams r2 ->
      req_text r1 = req_text r2 ->
      (forall name, In name forwardHeaders ->
                    Headers.get (req_headers r1) name = Headers.get (req_headers r2) name) ->
      upstream_request env r1 params = upstream_request env r2 params) /\
  (forall r : NextRequest,
      Headers.get (req_headers r) "accept" = None ->
      Headers.get (up_headers (upstream_request env r params)) "accept"
      = Some "application/json").
Proof.
  split.
  - intros r1 r2 Hm Hq Hb Hh. unfold upstream_request.
    rewrite Hm, Hq, Hb. unfold forwardHeaders. simpl fold_left.
    rewrite (Hh "content-type") by (simpl; tauto).
    rewrite (Hh "accept") by (simpl; tauto).
    rewrite (Hh "authorization") by (simpl; tauto).
    reflexivity.
  - intros r Hacc. unfold upstream_request. simpl up_headers.
    simpl fold_left. rewrite Hacc.
    set (h := match Headers.get (req_headers r) "authorization" with
              | Some value => _
              | None => _
              end).
    assert (Hnone : Headers.get h "accept" = None).
    { subst h.
      assert (H0 : Headers.get
                     match Headers.get (req_headers r) "content-type" with
                     | Some value =>
                         if (value =? "")%string then Headers.empty
                         else Headers.set Headers.empty "content-type" value
                     | None => Headers.empty
                     end "accept" = None).
      { destruct (Headers.get (req_headers r) "content-type") as [v|]; [|reflexivity].
        destruct (v =? "")%string; [reflexivity|].
        now rewrite get_set_other by reflexivity. }
      destruct (Headers.get (req_headers r) "authorization") as [v|]; [|exact H0].
      destruct (v =? "")%string; [exact H0|].
      now rewrite get_set_other by reflexivity. }
    apply has_get in Hnone. rewrite Hnone. simpl negb. cbv iota.
    now apply get_set_same.
Qed.

Example proxy_streams_success :
  proxy None sample_platform (fun _ => Resolved sample_ok)
        sample_request sample_params
  = mkResponse (Some "{}") 200 "OK"
      [("content-type", "application/json"); ("content-length", "2");
       ("access-control-allow-origin", "*");
       ("access-control-allow-methods", "GET,POST,OPTIONS");
       ("access-control-allow-headers", "Content-Type, Authorization, X-Requested-With");
       ("access-control-max-age", "86400")].
Proof. reflexivity. Qed.

Example proxy_buffering_success :
  proxy_buffering None sample_platform (fun _ => Resolved sample_ok)
        sample_request sample_params
  = mkResponse (Some "{}") 200 "OK"
      [("content-type", "application/json");
       ("access-control-allow-origin", "*");
       ("access-control-allow-methods", "GET,POST,OPTIONS");
       ("access-control-allow-headers", "Content-Type, Authorization, X-Requested-With");
       ("access-control-max-age", "86400")].
Proof. reflexivity. Qed.

Example upstream_request_of_post :
  upstream_request (Some "https://quote.example/v1/") sample_post sample_params
  = mkUpstream (mkURL "https://quote.example/v1/" "quote" []) "POST"
      [("content-type", "application/json"); ("accept", "application/json")]
      "no-store" (Some "{}").
Proof. reflexivity. Qed.

Lemma C9_upstream_request_witness :
  upstream_request None sample_request sample_params
  = upstream_request None sample_request_other_agent sample_params
  /\ Headers.get (up_headers (upstream_request None sample_post sample_params)) "accept"
     = Some "application/json".
Proof.
  pose proof (C9_upstream_request_depends_on_whitelist None sample_params) as [Hsame Hacc].
  split.
  - apply Hsame; try reflexivity.
    intros name [<-|[<-|[<-|[]]]]; reflexivity.
  - apply Hacc. reflexivity.
Defined.

End RouteFacts.

(** ** page.tsx *)
Module PageFacts.

Import Js Page.

(** *** getMintDecimals *)

Lemma numeric_decimals_spec (parsed : value) :
  numeric_decimals parsed = spec_numeric_decimals_field parsed.
Proof.
  unfold numeric_decimals, spec_numeric_decimals_field, get_prop_opt.
  destruct parsed as [| |b|n|s|bytes|fields]; try reflexivity.
  simpl. destruct (lookup "info" fields) as [i|]; [|reflexivity].
  destruct i as [| |b|n|s|bytes|info]; try reflexivity.
  simpl. destruct (lookup "decimals" info) as [d|]; [|reflexivity].
  destruct d; reflexivity.
Qed.

Lemma falsy_has_no_decimals (parsed : value) :
  truthy parsed = false -> spec_numeric_decimals_field parsed = None.
Proof. destruct parsed; simpl; try reflexivity; discriminate. Qed.

(** The first version never throws, whatever value the RPC client hands
    over. *)
Lemma getMintDecimals_total (v : value) :
  exists d, getMintDecimals (Fulfilled v) = Returns d.
Proof.
  unfold getMintDecimals, has_parsed_data.
  destruct v as [| |b|n|s|bytes|fields]; simpl; try (eexists; reflexivity).
  - destruct b; eexists; reflexivity.
  - destruct n as [| | |q]; simpl; try (eexists; reflexivity).
    destruct (Qeq_bool q 0); eexists; reflexivity.
  - destruct (String.eqb s ""); eexists; reflexivity.
  - destruct (lookup "data" fields) as [data|]; simpl; [|eexists; reflexivity].
    destruct data as [| |b|n|s|bytes|dfields]; simpl; try (eexists; reflexivity).
    + destruct b; eexists; reflexivity.
    + destruct n as [| | |q]; simpl; try (eexists; reflexivity).
      destruct (Qeq_bool q 0); eexists; reflexivity.
    + destruct (String.eqb s ""); eexists; reflexivity.
    + destruct (lookup "parsed" dfields) as [parsed|] eqn:Hp; simpl;
        [|eexists; reflexivity].
      rewrite Hp. destruct (numeric_decimals parsed); eexists; reflexivity.
Qed.

(** C10. On every account-info result of the declared type both versions
    of getMintDecimals return a number: 9 when the value is null, when the
    data is not parsed, or when the parsed info has no numeric decimals
    field, and that field otherwise; the first version returns a number on
    any value at all. *)
Theorem C10_getMintDecimals_total_with_default (a : option AccountInfo) :
  getMintDecimals (Fulfilled (js_of_account a)) = Returns (spec_decimals a) /\
  getMintDecimals_typed (Fulfilled (js_of_account a)) = Returns (spec_decimals a) /\
  (forall v : value, exists d, getMintDecimals (Fulfilled v) = Returns d).
Proof.
  split; [|split; [|exact getMintDecimals_total]].
  - destruct a as [ai|]; [|reflexivity].
    unfold getMintDecimals, has_parsed_data, spec_decimals. simpl.
    destruct (ai_data ai) as [bytes|p]; simpl; [reflexivity|].
    rewrite numeric_decimals_spec.
    destruct (spec_numeric_decimals_field (pad_parsed p)); reflexivity.
  - destruct a as [ai|]; [|reflexivity].
    unfold getMintDecimals_typed, spec_decimals. simpl.
    destruct (ai_data ai) as [bytes|p]; simpl; [reflexivity|].
    destruct (truthy (pad_parsed p)) eqn:Ht; simpl.
    + rewrite numeric_decimals_spec.
      destruct (spec_numeric_decimals_field (pad_parsed p)); reflexivity.
    + now rewrite (falsy_has_no_decimals _ Ht).
Qed.

Example getMintDecimals_sample :
  getMintDecimals (Fulfilled (js_of_account sample_mint)) = Returns (of_Z 6).
Proof. reflexivity. Qed.

(** *** fetchQuoteWithRetry *)

Section Retry.

Variable doFetch : nat -> attempt.
Variable delayMs : Z.

Lemma retry_loop_calls (remaining i : nat) (lastErr : option Error) :
  (count_calls (fst (retry_loop doFetch delayMs remaining i lastErr)) <= remaining)%nat.
Proof.
  unfold count_calls. revert i lastErr.
  induction remaining as [|r IH]; intros i lastErr; simpl; [lia|].
  destruct (doFetch i) as [q|e].
  - destruct (truthy q); [simpl; lia|].
    specialize (IH (S i) lastErr).
    destruct (retry_loop doFetch delayMs r (S i) lastErr) as [t res].
    simpl in *. lia.
  - specialize (IH (S i) (Some e)).
    destruct (retry_loop doFetch delayMs r (S i) (Some e)) as [t res].
    simpl in *. lia.
Qed.

(** The first quote ends the loop: the attempts before it are each
    followed by their wait, the attempt that succeeds is not. *)
Lemma retry_loop_first_quote (k : nat) :
  forall (remaining i : nat) (lastErr : option Error) (q : value),
    (k < remaining)%nat ->
    doFetch (i + k) = Quote q ->
    truthy q = true ->
    (forall j, (j < k)%nat -> attempt_fails (doFetch (i + j)) = true) ->
    exists lastErr',
      retry_loop doFetch delayMs remaining i lastErr
      = ((failed_attempts delayMs k i ++ [CallFetch (i + k)])%list, (Some q, lastErr')).
Proof.
  induction k as [|k IH]; intros remaining i lastErr q Hk Hq Ht Hfail.
  - destruct remaining as [|r]; [lia|]. simpl.
    rewrite Nat.add_0_r in *. rewrite Hq, Ht. eauto.
  - destruct remaining as [|r]; [lia|]. simpl.
    assert (H0 := Hfail 0%nat ltac:(lia)). rewrite Nat.add_0_r in H0.
    assert (Hnext : forall lastErr1, exists lastErr',
               retry_loop doFetch delayMs r (S i) lastErr1
               = ((failed_attempts delayMs k (S i) ++ [CallFetch (i + S k)])%list,
                  (Some q, lastErr'))).
    { intros lastErr1.
      replace (i + S k)%nat with (S i + k)%nat by lia.
      apply IH; [lia| | assumption |].
      - now replace (S i + k)%nat with (i + S k)%nat by lia.
      - intros j Hj. replace (S i + j)%nat with (i + S j)%nat by lia.
        apply Hfail. lia. }
    destruct (doFetch i) as [q0|e]; simpl in H0.
    + apply negb_true_iff in H0. rewrite H0.
      destruct (Hnext lastErr) as [l' ->]. eauto.
    + destruct (Hnext (Some e)) as [l' ->]. eauto.
Qed.

Lemma last_error_shift (f : nat -> attempt) (n : nat) :
  last_error f (S n) =
  match last_error (fun j => f (S j)) n with
  | Some e => Some e
  | None => match f 0%nat with Fails e => Some e | Quote _ => None end
  end.
Proof.
  induction n as [|n IH]; [reflexivity|].
  change (last_error f (S (S n)))
    with (match f (S n) with
          | Fails e => Some e
          | Quote _ => last_error f (S n)
          end).
  rewrite IH. simpl. destruct (f (S n)); reflexivity.
Qed.

(** Without a quote the loop runs all its iterations and leaves the last
    error thrown in [lastErr]. *)
Lemma retry_loop_no_quote (remaining : nat) :
  forall (i : nat) (lastErr : option Error),
    (forall j, (j < remaining)%nat -> attempt_fails (doFetch (i + j)) = true) ->
    retry_loop doFetch delayMs remaining i lastErr
    = (failed_attempts delayMs remaining i,
       (None,
        match last_error (fun j => doFetch (i + j)%nat) remaining with
        | Some e => Some e
        | None => lastErr
        end)).
Proof.
  induction remaining as [|r IH]; intros i lastErr Hfail; [reflexivity|].
  rewrite last_error_shift.
  assert (H0 := Hfail 0%nat ltac:(lia)).
  assert (Hrest : forall j, (j < r)%nat -> attempt_fails (doFetch (S i + j)) = true).
  { intros j Hj. replace (S i + j)%nat with (i + S j)%nat by lia. apply Hfail. lia. }
  assert (Hshift : last_error (fun j => doFetch (i + S j)%nat) r
                   = last_error (fun j => doFetch (S i + j)%nat) r).
  { clear. induction r as [|r IHr]; [reflexivity|]. simpl.
    replace (i + S r)%nat with (S (i + r)) by lia. now rewrite IHr. }
  rewrite Hshift. rewrite Nat.add_0_r in *. simpl.
  destruct (doFetch i) as [q0|e]; simpl in H0.
  - apply negb_true_iff in H0. rewrite H0.
    rewrite (IH (S i) lastErr Hrest).
    change (fun j : nat => doFetch (S (i + j)))
      with (fun j : nat => doFetch (S i + j)%nat).
    destruct (last_error (fun j => doFetch (S i + j)%nat) r); reflexivity.
  - rewrite (IH (S i) (Some e) Hrest).
    change (fun j : nat => doFetch (S (i + j)))
      with (fun j : nat => doFetch (S i + j)%nat).
    destruct (last_error (fun j => doFetch (S i + j)%nat) r); reflexivity.
Qed.

End Retry.

(** C4. fetchQuoteWithRetry calls the fetch function at most [tries]
    times (3 by default); the first attempt that yields a truthy quote ends
    it with that quote, every earlier attempt having been followed by a wait
    of [delayMs] (450 by default) times its attempt number; and when every
    attempt throws or yields a falsy value it throws the last error thrown,
    or the error 'Quote failed after retries' when none was. *)
Theorem C4_fetchQuoteWithRetry
  (doFetch : nat -> attempt) (tries : option nat) (delayMs : option Z) :
  let n := match tries with Some n => n | None => 3%nat end in
  let d := match delayMs with Some d => d | None => 450 end in
  let t := fst (fetchQuoteWithRetry doFetch tries delayMs) in
  let r := snd (fetchQuoteWithRetry doFetch tries delayMs) in
  (count_calls t <= n)%nat /\
  (forall k q,
      (k < n)%nat -> doFetch k = Quote q -> truthy q = true ->
      (forall j, (j < k)%nat -> attempt_fails (doFetch j) = true) ->
      r = Returns q /\ t = (failed_attempts d k 0 ++ [CallFetch k])%list) /\
  ((forall j, (j < n)%nat -> attempt_fails (doFetch j) = true) ->
   t = failed_attempts d n 0 /\
   r = Throws (match last_error doFetch n with
               | Some e => e
               | None => fresh_error
               end)).
Proof.
  intros n d t r. subst t r. unfold fetchQuoteWithRetry. fold n d.
  split; [|split].
  - pose proof (retry_loop_calls doFetch d n 0 None) as H.
    destruct (retry_loop doFetch d n 0 None) as [t [[q|] lastErr]]; exact H.
  - intros k q Hk Hq Ht Hfail.
    destruct (retry_loop_first_quote doFetch d k n 0 None q Hk Hq Ht Hfail)
      as [lastErr' ->].
    split; reflexivity.
  - intros Hfail.
    rewrite (retry_loop_no_quote doFetch d n 0 None Hfail).
    split; [reflexivity|]. simpl.
    change (fun j : nat => doFetch j) with doFetch.
    destruct (last_error doFetch n); reflexivity.
Qed.

Lemma C4_fetchQuoteWithRetry_witness :
  fetchQuoteWithRetry sample_fetch None None
  = ([CallFetch 0; Sleep 450; CallFetch 1; Sleep 900; CallFetch 2],
     Returns sample_quote)
  /\ fetchQuoteWithRetry sample_fetch_failing None None
     = ([CallFetch 0; Sleep 450; CallFetch 1; Sleep 900; CallFetch 2; Sleep 1350],
        Throws (mkError "fetch failed")).
Proof.
  split.
  - destruct (proj1 (proj2 (C4_fetchQuoteWithRetry sample_fetch None None))
                2%nat sample_quote) as [Hr Ht].
    + simpl. lia.
    + reflexivity.
    + reflexivity.
    + intros [|[|j]] Hj; [reflexivity|reflexivity|lia].
    + rewrite (surjective_pairing (fetchQuoteWithRetry sample_fetch None None)).
      rewrite Hr, Ht. reflexivity.
  - destruct (proj2 (proj2 (C4_fetchQuoteWithRetry sample_fetch_failing None None)))
      as [Ht Hr].
    + intros [|[|[|j]]] Hj; simpl in Hj; [reflexivity|reflexivity|reflexivity|lia].
    + rewrite (surjective_pairing (fetchQuoteWithRetry sample_fetch_failing None None)).
      rewrite Hr, Ht. reflexivity.
Defined.

(** *** Numbers *)

Lemma floor_finite (x : number) :
  isFinite (floor x) = true -> exists a : Z, floor x = of_Z a.
Proof. destruct x as [| | |q]; simpl; try discriminate. eauto. Qed.

Lemma of_Z_positive (a : Z) : le (of_Z a) (of_Z 0) = false -> 0 < a.
Proof.
  unfold le, of_Z. intros H.
  destruct (Z_lt_le_dec 0 a) as [Hlt|Hle]; [exact Hlt|].
  assert (Hq : Qle_bool (inject_Z a) (inject_Z 0) = true).
  { apply Qle_bool_iff. now rewrite <- Zle_Qle. }
  congruence.
Qed.

(** [Math.ceil(SOL_FEE_BUFFER * LAMPORTS_PER_SOL)]: the product of the
    binary64 value of 0.004 and 1e9 rounds to 4000000. *)
Lemma withdraw_buffer_value : withdraw_buffer = of_Z 4000000.
Proof. vm_compute. reflexivity. Qed.

Lemma not_lt_finite (p q : Q) : lt (Fin p) (Fin q) = false -> (q <= p)%Q.
Proof.
  unfold lt, Qltb. intros H. apply negb_false_iff in H.
  now apply Qle_bool_iff.
Qed.

(** The amount check of the two withdrawal functions lets through exactly
    the finite amounts above zero. *)
Lemma invalid_amount_spec (lam : number) :
  invalid_amount lam = negb (isFinite lam && lt (of_Z 0) lam).
Proof.
  unfold invalid_amount. destruct lam as [| | |q]; try reflexivity.
  simpl. unfold Qltb. now rewrite negb_involutive.
Qed.

(** *** Rounding to binary64 *)

Lemma rne_lower (n d : Z) : n / d <= rne n d.
Proof.
  unfold rne. destruct (2 * (n mod d) ?= d); [destruct (Z.even (n / d))| |]; lia.
Qed.

Lemma rne_exact (n : Z) : rne n 1 = n.
Proof.
  unfold rne. rewrite Z.mod_1_r, Z.div_1_r. reflexivity.
Qed.

(** The exponent that [ilog2] finds for a quotient of at least 1. *)
Lemma ilog2_lower (n d : Z) :
  0 < d -> d <= n -> 0 <= ilog2 n d /\ d * 2 ^ ilog2 n d <= n.
Proof.
  intros Hd Hn. unfold ilog2.
  assert (Hk : 0 <= Z.log2 n - Z.log2 d).
  { pose proof (Z.log2_le_mono d n Hn). lia. }
  set (k := Z.log2 n - Z.log2 d) in *.
  rewrite (Z.max_l 0 (- k)) by lia. rewrite (Z.max_r 0 k) by lia.
  rewrite Z.pow_0_r, Z.mul_1_r.
  destruct (n <? d * 2 ^ k) eqn:E.
  - apply Z.ltb_lt in E.
    assert (Hk1 : 1 <= k).
    { destruct (Z.eq_dec k 0) as [H0|H0]; [|lia].
      rewrite H0, Z.pow_0_r, Z.mul_1_r in E. lia. }
    split; [lia|].
    destruct (Z.log2_spec d Hd) as [_ Hd2].
    destruct (Z.log2_spec n ltac:(lia)) as [Hn1 _].
    assert (Hp : 2 ^ Z.log2 n = 2 ^ Z.succ (Z.log2 d) * 2 ^ (k - 1)).
    { rewrite <- Z.pow_add_r by (pose proof (Z.log2_nonneg d); lia).
      f_equal. subst k. lia. }
    assert (H2 : 0 < 2 ^ (k - 1)) by (apply Z.pow_pos_nonneg; lia).
    nia.
  - apply Z.ltb_ge in E. split; [lia|exact E].
Qed.

Lemma ilog2_int (n : Z) : 0 < n -> ilog2 n 1 = Z.log2 n.
Proof.
  intros Hn. unfold ilog2. change (Z.log2 1) with 0. rewrite Z.sub_0_r.
  pose proof (Z.log2_nonneg n) as H0.
  rewrite (Z.max_l 0 (- Z.log2 n)) by lia. rewrite (Z.max_r 0 (Z.log2 n)) by lia.
  rewrite Z.pow_0_r, !Z.mul_1_r, Z.mul_1_l.
  destruct (Z.log2_spec n Hn) as [H1 _].
  destruct (n <? 2 ^ Z.log2 n) eqn:E; [apply Z.ltb_lt in E; lia|reflexivity].
Qed.

Lemma Qred_int (z : Z) : Qred (inject_Z z) = inject_Z z.
Proof.
  unfold Qred, inject_Z.
  pose proof (Z.ggcd_gcd z 1) as Hg.
  pose proof (Z.ggcd_correct_divisors z 1) as Hc.
  destruct (Z.ggcd z 1) as [g [aa bb]]. simpl in *.
  rewrite Z.gcd_1_r in Hg. subst g. destruct Hc as [Ha Hb].
  rewrite Z.mul_1_l in Ha, Hb. now subst.
Qed.

Lemma Qred_scaled (z k : Z) : 0 < k -> Qred (z * k # Z.to_pos k) = inject_Z z.
Proof.
  intros Hk. rewrite <- Qred_int. apply Qred_complete.
  unfold Qeq, inject_Z. simpl. rewrite Z2Pos.id by exact Hk. ring.
Qed.

Lemma round_pos_int (n : Z) :
  0 < n <= 2 ^ 53 -> round_pos n 1 = Some (inject_Z n).
Proof.
  intros [Hn Hmax]. unfold round_pos. rewrite (ilog2_int n Hn).
  assert (HL : 0 <= Z.log2 n <= 53).
  { split; [apply Z.log2_nonneg|].
    change 53 with (Z.log2 (2 ^ 53)). now apply Z.log2_le_mono. }
  rewrite Z.max_l by lia.
  destruct (0 <=? Z.log2 n - 52) eqn:E.
  - apply Z.leb_le in E.
    assert (HL' : Z.log2 n = 52 \/ Z.log2 n = 53) by lia.
    destruct HL' as [H|H]; rewrite H.
    + change (52 - 52) with 0. rewrite Z.pow_0_r, !Z.mul_1_r, rne_exact.
      replace (2 ^ 1024 <=? n) with false; [reflexivity|].
      symmetry. apply Z.leb_gt.
      apply Z.le_lt_trans with (2 ^ 53); [exact Hmax|reflexivity].
    + assert (Hn53 : n = 2 ^ 53).
      { destruct (Z.log2_spec n Hn) as [H1 _]. rewrite H in H1. lia. }
      subst n. reflexivity.
  - apply Z.leb_gt in E. rewrite rne_exact. f_equal.
    apply Qred_scaled. apply Z.pow_pos_nonneg; lia.
Qed.

(** An integer of at most 53 bits is a binary64 value. *)
Lemma binary64_int (z : Z) :
  Z.abs z <= 2 ^ 53 -> binary64 (inject_Z z) = of_Z z.
Proof.
  intros Hz. unfold binary64, of_Z. simpl Qnum. simpl Qden.
  destruct z as [|n|n]; [reflexivity| |].
  - rewrite round_pos_int; [reflexivity|]. split; [reflexivity|exact Hz].
  - rewrite round_pos_int; [reflexivity|]. split; [reflexivity|exact Hz].
Qed.

(** A sum of integers that stays within 53 bits is exact. *)
Lemma add_int (a b : Z) :
  Z.abs (a + b) <= 2 ^ 53 -> add (of_Z a) (of_Z b) = of_Z (a + b).
Proof.
  intros H. unfold add, of_Z.
  change (inject_Z a + inject_Z b)%Q with ((a * 1 + b * 1) # 1).
  rewrite !Z.mul_1_r. now apply binary64_int.
Qed.

Lemma binary64_zero (q : Q) : Qnum q = 0 -> binary64 q = Fin 0.
Proof. intros H. unfold binary64. now rewrite H. Qed.

(** What is at least 1 is not rounded below 1. *)
Lemma round_pos_ge_one (n d : Z) :
  0 < d -> d <= n ->
  match round_pos n d with
  | Some r => (1 <= r)%Q
  | None => True
  end.
Proof.
  intros Hd Hn. unfold round_pos.
  destruct (ilog2_lower n d Hd Hn) as [HL Hspec].
  set (L := ilog2 n d) in *.
  rewrite Z.max_l by lia.
  destruct (0 <=? L - 52) eqn:E.
  - apply Z.leb_le in E.
    assert (Hp : 0 < 2 ^ (L - 52)) by (apply Z.pow_pos_nonneg; lia).
    assert (Hm : 2 ^ 52 <= rne n (d * 2 ^ (L - 52))).
    { apply Z.le_trans with (n / (d * 2 ^ (L - 52))); [|apply rne_lower].
      apply Z.div_le_lower_bound; [nia|].
      replace (2 ^ L) with (2 ^ (L - 52) * 2 ^ 52) in Hspec
        by (rewrite <- Z.pow_add_r by lia; f_equal; lia).
      nia. }
    destruct (2 ^ 1024 <=? _); [exact I|].
    unfold Qle, inject_Z. simpl.
    assert (0 < 2 ^ 52) by reflexivity. nia.
  - apply Z.leb_gt in E.
    assert (Hp : 0 < 2 ^ (- (L - 52))) by (apply Z.pow_pos_nonneg; lia).
    assert (Hm : 2 ^ 52 <= rne (n * 2 ^ (- (L - 52))) d).
    { apply Z.le_trans with (n * 2 ^ (- (L - 52)) / d); [|apply rne_lower].
      apply Z.div_le_lower_bound; [lia|].
      assert (H52 : 2 ^ 52 = 2 ^ L * 2 ^ (- (L - 52))).
      { rewrite <- Z.pow_add_r by lia. f_equal. lia. }
      rewrite H52. nia. }
    rewrite Qred_correct. unfold Qle. simpl. rewrite Z2Pos.id by exact Hp.
    assert (Hle : 2 ^ (- (L - 52)) <= 2 ^ 52) by (apply Z.pow_le_mono_r; lia).
    lia.
Qed.

Lemma binary64_ge_one (q : Q) :
  (1 <= q)%Q -> le (of_Z 1) (binary64 q) = true.
Proof.
  intros H. unfold binary64. destruct q as [n d]. simpl Qnum. simpl Qden.
  unfold Qle in H. simpl in H. rewrite ?Z.mul_1_l, ?Z.mul_1_r in H.
  destruct n as [|n|n]; try lia.
  pose proof (round_pos_ge_one (Z.pos n) (Z.pos d) ltac:(reflexivity) H) as Hr.
  destruct (round_pos (Z.pos n) (Z.pos d)) as [r|]; [|reflexivity].
  unfold le, of_Z. now apply Qle_bool_iff.
Qed.

(** The rounding agrees with the binary64 operations of the Standard
    Library's [SpecFloat] on the sample operands, in both orders: normal
    and subnormal values, results that are exact, rounded, tied and
    overflowing. *)
Example binary64_agrees_with_SpecFloat :
  Binary64Check.agree mul (SFmul 53 1024) = true /\
  Binary64Check.agree add (SFadd 53 1024) = true /\
  Binary64Check.agree JsMath.sub (SFsub 53 1024) = true /\
  Binary64Check.agree JsMath.div (SFdiv 53 1024) = true.
Proof. vm_compute. repeat split. Qed.

(** The products that exact arithmetic would get wrong by one. *)
Example lamports_of_three_tenths :
  Page.lamports_of_input sample_parseFloat "0.3" = of_Z 300000000 /\
  Page.lamports_of_input sample_parseFloat "0.00013" = of_Z 129999 /\
  Page.lamports_of_input sample_parseFloat "1e300" = PosInf.
Proof. vm_compute. repeat split. Qed.

(** A balance of 11817500 lamports comes back whole from the division by
    10^9 and the product with it; one of 16005000 lamports comes back one
    lamport short. *)
Example balance_in_lamports :
  floor (mul (JsMath.div (of_Z 11817500) LAMPORTS_PER_SOL) LAMPORTS_PER_SOL)
  = of_Z 11817500 /\
  floor (mul (JsMath.div (of_Z 16005000) LAMPORTS_PER_SOL) LAMPORTS_PER_SOL)
  = of_Z 16004999.
Proof. vm_compute. repeat split. Qed.

Section Withdraw.

Variable parseFloat : string -> number.
Variable trim : string -> string.
Variable PublicKey_new : string -> option PublicKey.
Variable needUi_text : number -> string.
Variable transfer_accepts : number -> bool.

Local Abbreviation sendWithdrawSol :=
  (sendWithdrawSol parseFloat trim PublicKey_new needUi_text transfer_accepts).
Local Abbreviation refreshWithdrawFee :=
  (refreshWithdrawFee parseFloat trim PublicKey_new transfer_accepts).
Local Abbreviation estimateSolTransferFee :=
  (estimateSolTransferFee transfer_accepts).
Local Abbreviation known_fee := (known_fee transfer_accepts).
Local Abbreviation lamports_of_input := (lamports_of_input parseFloat).

Local Arguments withdraw_need : simpl never.
Local Arguments withdraw_have : simpl never.
Local Arguments Page.lamports_of_input : simpl never.
Local Arguments lt : simpl never.
Local Arguments le : simpl never.

(** Estimating the fee sends nothing, shows nothing and always yields a
    result. *)
Lemma estimateSolTransferFee_quiet
  (st : State) (w : World) (toPk : PublicKey) (lam : number) :
  exists t fee,
    estimateSolTransferFee st w toPk lam = (t, Some fee) /\
    existsb is_send t = false /\ existsb is_error_toast t = false.
Proof.
  unfold Page.estimateSolTransferFee.
  destruct (publicKey st) as [pk|]; simpl;
    [|do 2 eexists; repeat split; reflexivity].
  destruct (w_estimate_blockhash w) as [bh|e]; simpl;
    [|do 2 eexists; repeat split; reflexivity].
  destruct (transfer_accepts lam); simpl;
    [|do 2 eexists; repeat split; reflexivity].
  destruct (w_getFeeForMessage w _) as [fee|e]; simpl;
    do 2 eexists; repeat split; reflexivity.
Qed.

Local Arguments Page.estimateSolTransferFee : simpl never.

(** The withdrawal is turned down before anything is sent: at one of the
    four checks that follow the wallet check. *)
Lemma sendWithdrawSol_rejects (st : State) (w : World) :
  PublicKey_new (trim (wdTo st)) = None
  \/ invalid_amount (lamports_of_input (wdSol st)) = true
  \/ (exists toPk,
         PublicKey_new (trim (wdTo st)) = Some toPk /\
         known_fee st w toPk (lamports_of_input (wdSol st)) = None)
  \/ (exists toPk fee,
         PublicKey_new (trim (wdTo st)) = Some toPk /\
         known_fee st w toPk (lamports_of_input (wdSol st)) = Some fee /\
         lt (withdraw_have st) (withdraw_need (lamports_of_input (wdSol st)) fee)
         = true) ->
  rejected (sendWithdrawSol st w).
Proof.
  intros H. unfold rejected, Page.sendWithdrawSol, Page.known_fee in *.
  destruct (publicKey st) as [pk|]; [|split; reflexivity].
  destruct (PublicKey_new (trim (wdTo st))) as [toPk|] eqn:Hto;
    [|split; reflexivity].
  destruct (invalid_amount (lamports_of_input (wdSol st))) eqn:Hamt;
    [split; reflexivity|].
  destruct (estimateSolTransferFee_quiet st w toPk (lamports_of_input (wdSol st)))
    as (t & r & Hest & Hsend & Htoast).
  rewrite Hest in *.
  destruct H as [H|[H|[(toPk' & Hpk & Hfee)|(toPk' & fee & Hpk & Hfee & Hlt)]]];
    try discriminate; injection Hpk as <-; revert Hfee; rewrite Hest.
  - destruct (wdFeeLamports st) as [fee|]; [discriminate|]. simpl.
    intros ->. simpl. unfold trace. simpl.
    rewrite !existsb_app, Hsend, Htoast. split; reflexivity.
  - destruct (wdFeeLamports st) as [fee0|]; simpl.
    + intros [= ->]. rewrite Hlt. split; reflexivity.
    + intros ->. simpl. rewrite Hlt. unfold trace. simpl.
      rewrite !existsb_app, Hsend, Htoast. split; reflexivity.
Qed.

(** A withdrawal that sends has passed every check. *)
Lemma sendWithdrawSol_sends (st : State) (w : World) :
  existsb is_send (trace (sendWithdrawSol st w)) = true ->
  exists pk toPk fee,
    publicKey st = Some pk /\
    PublicKey_new (trim (wdTo st)) = Some toPk /\
    invalid_amount (lamports_of_input (wdSol st)) = false /\
    known_fee st w toPk (lamports_of_input (wdSol st)) = Some fee /\
    lt (withdraw_have st) (withdraw_need (lamports_of_input (wdSol st)) fee) = false /\
    transfer_accepts (lamports_of_input (wdSol st)) = true /\
    exists blockhash,
      In (ESendTransaction
            (Transfer pk toPk (lamports_of_input (wdSol st)) blockhash pk))
         (trace (sendWithdrawSol st w)).
Proof.
  unfold Page.sendWithdrawSol, Page.known_fee.
  destruct (publicKey st) as [pk|]; [|discriminate].
  destruct (PublicKey_new (trim (wdTo st))) as [toPk|]; [|discriminate].
  destruct (invalid_amount (lamports_of_input (wdSol st))); [discriminate|].
  destruct (estimateSolTransferFee_quiet st w toPk (lamports_of_input (wdSol st)))
    as (t & r & Hest & Hsend & Htoast).
  rewrite Hest.
  destruct (wdFeeLamports st) as [fee|]; simpl.
  - destruct (lt (withdraw_have st) _) eqn:Hlt; [discriminate|]. simpl.
    destruct (w_send_blockhash w) as [bh|e]; simpl; [|discriminate].
    destruct (transfer_accepts (lamports_of_input (wdSol st))) eqn:Hta; simpl;
      [|discriminate].
    intros _. exists pk, toPk, fee.
    repeat split; try reflexivity; try assumption.
    exists bh. destruct (w_sendTransaction w _); simpl; tauto.
  - destruct r as [fee|]; simpl.
    + destruct (lt (withdraw_have st) _) eqn:Hlt; simpl; unfold trace; simpl.
      * rewrite existsb_app, Hsend. discriminate.
      * destruct (w_send_blockhash w) as [bh|e]; simpl.
        -- destruct (transfer_accepts (lamports_of_input (wdSol st))) eqn:Hta; simpl.
           ++ intros _. exists pk, toPk, fee. rewrite Hest.
              repeat split; try reflexivity; try assumption.
              exists bh.
              destruct (w_sendTransaction w _); simpl;
                apply in_or_app; right; simpl; tauto.
           ++ rewrite existsb_app, Hsend. discriminate.
        -- rewrite existsb_app, Hsend. discriminate.
    + unfold trace. simpl. rewrite existsb_app, Hsend. discriminate.
Qed.

Lemma finite_amount (lam : number) :
  invalid_amount lam = false -> exists q, lam = Fin q.
Proof. destruct lam; try discriminate. eauto. Qed.

(** Neither side of the balance check is NaN. *)
Lemma binary64_not_nan (q : Q) : binary64 q <> NaN.
Proof.
  unfold binary64. destruct (Qnum q); try discriminate;
    destruct (round_pos _ _); discriminate.
Qed.

Lemma withdraw_have_not_nan (st : State) : withdraw_have st <> NaN.
Proof.
  unfold withdraw_have, mul, LAMPORTS_PER_SOL, of_Z.
  pose proof (binary64_not_nan (solBalance st * inject_Z 1000000000)) as H.
  destruct (binary64 _); simpl; try discriminate; congruence.
Qed.

Lemma withdraw_need_not_nan (q fee : Q) : withdraw_need (Fin q) fee <> NaN.
Proof.
  unfold withdraw_need. rewrite withdraw_buffer_value. unfold add at 2.
  pose proof (binary64_not_nan (q + fee)) as H.
  destruct (binary64 (q + fee)) as [| | |r]; simpl; try congruence.
  apply binary64_not_nan.
Qed.

Lemma lt_not_ge (x y : number) : x <> NaN -> y <> NaN -> lt x y = negb (ge x y).
Proof.
  unfold lt, ge, le, Qltb.
  destruct x as [| | |p], y as [| | |q]; try reflexivity; congruence.
Qed.

(** [have >= need] on a whole number of lamports. *)
Lemma ge_whole (x : number) (n : Z) :
  ge (floor x) (of_Z n) = true ->
  floor x = PosInf \/ exists h : Z, floor x = of_Z h /\ n <= h.
Proof.
  destruct x as [| | |q]; simpl; try discriminate; [now left|].
  intros H. right. exists (Qfloor q). split; [reflexivity|].
  unfold ge, le, of_Z in H. apply Qle_bool_iff in H. now rewrite <- Zle_Qle in H.
Qed.

(** C3. sendWithdrawSol sends a transfer only from a connected wallet to
    a valid address, for a whole lamport amount above zero that the
    transfer instruction can encode, with a known fee, and with
    Math.floor(solBalance * LAMPORTS_PER_SOL) at least the amount plus the
    fee plus the buffer Math.ceil(0.004 * LAMPORTS_PER_SOL), all in the
    arithmetic of JavaScript numbers; the buffer is 4000000, and where
    amount, fee and buffer are whole numbers whose sum fits 53 bits, the
    balance in lamports is at least that sum or infinite.  When the
    address is invalid, the amount is not finite and positive, no fee can
    be estimated or the balance does not cover the three, nothing is sent
    and an error toast is shown. *)
Theorem C3_withdraw_needs_amount_fee_and_buffer (st : State) (w : World) :
  (existsb is_send (trace (sendWithdrawSol st w)) = true ->
   exists pk toPk (a : Z) (fee : Q) blockhash,
     publicKey st = Some pk /\
     PublicKey_new (trim (wdTo st)) = Some toPk /\
     lamports_of_input (wdSol st) = of_Z a /\ 0 < a /\
     transfer_accepts (of_Z a) = true /\
     known_fee st w toPk (of_Z a) = Some fee /\
     ge (floor (mul (Fin (solBalance st)) LAMPORTS_PER_SOL))
        (add (add (of_Z a) (Fin fee)) (ceil (mul SOL_FEE_BUFFER LAMPORTS_PER_SOL)))
     = true /\
     ceil (mul SOL_FEE_BUFFER LAMPORTS_PER_SOL) = of_Z 4000000 /\
     (forall f : Z,
         fee = inject_Z f -> 0 <= f -> a + f + 4000000 <= 2 ^ 53 ->
         floor (mul (Fin (solBalance st)) LAMPORTS_PER_SOL) = PosInf \/
         exists h : Z,
           floor (mul (Fin (solBalance st)) LAMPORTS_PER_SOL) = of_Z h /\
           a + f + 4000000 <= h) /\
     In (ESendTransaction (Transfer pk toPk (of_Z a) blockhash pk))
        (trace (sendWithdrawSol st w))) /\
  (PublicKey_new (trim (wdTo st)) = None
   \/ invalid_amount (lamports_of_input (wdSol st)) = true
   \/ (exists toPk,
          PublicKey_new (trim (wdTo st)) = Some toPk /\
          known_fee st w toPk (lamports_of_input (wdSol st)) = None)
   \/ (exists toPk fee,
          PublicKey_new (trim (wdTo st)) = Some toPk /\
          invalid_amount (lamports_of_input (wdSol st)) = false /\
          known_fee st w toPk (lamports_of_input (wdSol st)) = Some fee /\
          ge (withdraw_have st) (withdraw_need (lamports_of_input (wdSol st)) fee)
          = false) ->
   rejected (sendWithdrawSol st w)).
Proof.
  split.
  - intros Hsend.
    destruct (sendWithdrawSol_sends st w Hsend)
      as (pk & toPk & fee & Hpk & Hto & Hamt & Hfee & Hlt & Hta & bh & Hin).
    unfold invalid_amount in Hamt. apply orb_false_iff in Hamt.
    destruct Hamt as [Hfin Hpos]. apply negb_false_iff in Hfin.
    destruct (floor_finite _ Hfin) as [a Ha].
    fold (Page.lamports_of_input parseFloat (wdSol st)) in Ha.
    rewrite Ha in *.
    exists pk, toPk, a, fee, bh.
    assert (Hpos' : 0 < a) by now apply of_Z_positive.
    assert (Hge : ge (floor (mul (Fin (solBalance st)) LAMPORTS_PER_SOL))
                     (add (add (of_Z a) (Fin fee))
                          (ceil (mul SOL_FEE_BUFFER LAMPORTS_PER_SOL))) = true).
    { change (ge (withdraw_have st) (withdraw_need (of_Z a) fee) = true).
      rewrite <- (negb_involutive (ge _ _)).
      rewrite <- lt_not_ge, Hlt by
        (apply withdraw_have_not_nan || apply withdraw_need_not_nan).
      reflexivity. }
    split; [assumption|]. split; [assumption|]. split; [reflexivity|].
    split; [assumption|]. split; [assumption|]. split; [assumption|].
    split; [assumption|]. split; [exact withdraw_buffer_value|].
    split; [|assumption].
    intros f -> Hf Hsum.
    apply ge_whole. revert Hge.
    change (ceil (mul SOL_FEE_BUFFER LAMPORTS_PER_SOL)) with withdraw_buffer.
    rewrite withdraw_buffer_value.
    change (Fin (inject_Z f)) with (of_Z f).
    rewrite !add_int by lia. exact (fun H => H).
  - intros H. apply sendWithdrawSol_rejects.
    destruct H as [H|[H|[H|(toPk & fee & Hto & Hamt & Hfee & Hge)]]];
      [tauto|tauto|tauto|].
    right; right; right. exists toPk, fee. repeat split; try assumption.
    destruct (finite_amount _ Hamt) as [q Hq]. rewrite Hq in *.
    rewrite lt_not_ge, Hge by
      (apply withdraw_have_not_nan || apply withdraw_need_not_nan).
    reflexivity.
Qed.

(** C8. The amount typed for a withdrawal becomes
    Math.floor(Math.max(0, parseFloat(text)) * LAMPORTS_PER_SOL) lamports,
    with LAMPORTS_PER_SOL = 10^9: 0 for a parsed amount that is not above
    zero, otherwise the floor of the product as binary64 rounds it, or
    Infinity when the product overflows.  Unless that number is finite and
    above zero, sendWithdrawSol sends nothing and shows an error toast,
    and refreshWithdrawFee estimates no fee; an amount that is sent is a
    whole number of lamports above zero. *)
Theorem C8_withdraw_amount_in_lamports (st : State) (w : World) :
  let lam := lamports_of_input (wdSol st) in
  lam = floor (mul (max (of_Z 0) (parseFloat (or_zero (wdSol st)))) (of_Z (10 ^ 9))) /\
  (forall x,
      parseFloat (or_zero (wdSol st)) = Fin x ->
      ((x <= 0)%Q -> lam = of_Z 0) /\
      ((0 < x)%Q ->
       lam = floor (binary64 (x * inject_Z (10 ^ 9))) /\
       (forall r, binary64 (x * inject_Z (10 ^ 9)) = Fin r -> lam = of_Z (Qfloor r)) /\
       (binary64 (x * inject_Z (10 ^ 9)) = PosInf -> lam = PosInf))) /\
  ((isFinite lam && lt (of_Z 0) lam)%bool = false ->
   rejected (sendWithdrawSol st w) /\
   trace (refreshWithdrawFee st w) = [ESetWdFeeLamports None]) /\
  (existsb is_send (trace (sendWithdrawSol st w)) = true ->
   isFinite lam = true /\ lt (of_Z 0) lam = true /\
   exists a : Z, lam = of_Z a /\ 0 < a).
Proof.
  intros lam. split; [reflexivity|]. split; [|split].
  - intros x Hx. subst lam. unfold Page.lamports_of_input. rewrite Hx.
    replace (max (of_Z 0) (Fin x))
      with (if Qle_bool 0 x then Fin x else of_Z 0) by reflexivity.
    destruct (Qle_bool 0 x) eqn:E.
    + apply Qle_bool_iff in E. split.
      * intros Hle. assert (H0 : x == 0) by now apply Qle_antisym.
        unfold mul, LAMPORTS_PER_SOL, of_Z. rewrite binary64_zero; [reflexivity|].
        unfold Qeq in H0. simpl in H0. rewrite Z.mul_1_r in H0.
        simpl. now rewrite H0.
      * intros _. unfold mul, LAMPORTS_PER_SOL, of_Z.
        change (10 ^ 9) with 1000000000.
        split; [reflexivity|]. split.
        -- intros r ->. reflexivity.
        -- intros ->. reflexivity.
    + split.
      * intros _. unfold mul, LAMPORTS_PER_SOL, of_Z. now rewrite binary64_zero.
      * intros Hpos. exfalso.
        assert (Hle : Qle_bool 0 x = true)
          by (apply Qle_bool_iff; now apply Qlt_le_weak).
        congruence.
  - intros Hbad.
    assert (Hinv : invalid_amount lam = true).
    { rewrite invalid_amount_spec. now rewrite Hbad. }
    split.
    + apply sendWithdrawSol_rejects. right. left. exact Hinv.
    + unfold Page.refreshWithdrawFee.
      destruct (publicKey st); [|reflexivity].
      fold lam. now rewrite Hinv.
  - intros Hsend.
    destruct (sendWithdrawSol_sends st w Hsend)
      as (pk & toPk & fee & _ & _ & Hamt & _).
    fold lam in Hamt.
    assert (Hamt' := Hamt). rewrite invalid_amount_spec in Hamt'.
    apply negb_false_iff in Hamt'. apply andb_true_iff in Hamt'.
    destruct Hamt' as [Hfin Hpos]. repeat split; try assumption.
    unfold invalid_amount in Hamt. apply orb_false_iff in Hamt.
    destruct Hamt as [_ Hle].
    destruct (floor_finite _ Hfin) as [a Ha].
    fold (Page.lamports_of_input parseFloat (wdSol st)) in Ha. fold lam in Ha.
    exists a. split; [exact Ha|]. rewrite Ha in Hle. now apply of_Z_positive.
Qed.

End Withdraw.


(** *** doSwap *)

Section Swap.

Variables SOL TROLL : string.
Variable parseFloat : string -> number.
Variable quote_failure_text : Error -> string.

Local Abbreviation doSwap := (doSwap SOL parseFloat quote_failure_text).

Lemma reachable_mints (sel : string * string) :
  reachable SOL TROLL sel ->
  (fst sel = SOL \/ fst sel = TROLL) /\ (snd sel = SOL \/ snd sel = TROLL).
Proof.
  induction 1 as [|sel a Hsel [IH1 IH2] Ha]; [simpl; tauto|].
  destruct a as [v|v|]; simpl in *; intuition auto.
Qed.

(** With the same mint on both sides [doSwap] stops at one of its checks. *)
Lemma doSwap_same_mint (st : State) (w : World) :
  inMintStr st = outMintStr st ->
  rejected (doSwap st w) /\
  existsb is_fetch (trace (doSwap st w)) = false.
Proof.
  intros Hsame. unfold rejected, Page.doSwap.
  destruct (publicKey st) as [pk|]; [|repeat split; reflexivity].
  destruct (negb (isFinite _) || le _ _); [repeat split; reflexivity|].
  destruct (lt _ _); [repeat split; reflexivity|].
  destruct (bigIntIsZero _); [repeat split; reflexivity|].
  rewrite Hsame, String.eqb_refl. repeat split; reflexivity.
Qed.

(** C6. doSwap with the same mint selected on both sides shows an error
    toast and fetches neither a quote nor a transaction; the two selectors
    offer the SOL mint and the TROLL mint only; hence a swap that the
    user can set up and that reaches a fetch is between these two mints,
    in one direction or the other. *)
Theorem C6_doSwap_single_pair (st : State) (w : World) :
  (inMintStr st = outMintStr st ->
   rejected (doSwap st w) /\
   existsb is_fetch (trace (doSwap st w)) = false) /\
  (forall v,
      In v (fromOptions SOL TROLL) \/ In v (toOptions SOL TROLL) ->
      v = SOL \/ v = TROLL) /\
  (reachable SOL TROLL (inMintStr st, outMintStr st) ->
   existsb is_fetch (trace (doSwap st w)) = true ->
   (inMintStr st = SOL /\ outMintStr st = TROLL) \/
   (inMintStr st = TROLL /\ outMintStr st = SOL)).
Proof.
  split; [apply doSwap_same_mint|]. split.
  - unfold fromOptions, toOptions. simpl. intuition auto.
  - intros Hreach Hfetch.
    assert (Hdiff : inMintStr st <> outMintStr st).
    { intros Hsame. destruct (doSwap_same_mint st w Hsame) as [_ Hno].
      congruence. }
    destruct (reachable_mints _ Hreach) as [[Hi|Hi] [Ho|Ho]]; simpl in *;
      try tauto; exfalso; apply Hdiff; congruence.
Qed.

End Swap.

Example sendWithdrawSol_sample :
  trace (sendWithdrawSol sample_parseFloat sample_trim sample_PublicKey_new
           sample_needUi sample_transfer_accepts sample_state sample_world)
  = [ESetWdSending true; EGetLatestBlockhash;
     ESendTransaction
       (Transfer "Wallet1111" "Dest1111" (of_Z 100000000) "blockhash2" "Wallet1111");
     EToast success "Withdrawal sent! View on Solscan."
            (Some "https://solscan.io/tx/signature1");
     ESetWdOpen false; ESetWdTo ""; ESetWdSol "0.1"; ESetWdFeeLamports None;
     ERefreshBalances; ESetWdSending false].
Proof. reflexivity. Qed.

Example sendWithdrawSol_one_lamport_short :
  trace (sendWithdrawSol sample_parseFloat sample_trim sample_PublicKey_new
           sample_needUi sample_transfer_accepts sample_state_short sample_world)
  = [EToast error "Not enough SOL to cover amount + fee. Need ≈ 0.104005 SOL total."
            None].
Proof. reflexivity. Qed.

Example doSwap_sample :
  trace (doSwap "SOL" sample_parseFloat sample_failure_text sample_state sample_world)
  = [EToast info "Building route…" None; EFetchQuote;
     EFetchSwapTransaction sample_quote;
     ESendTransaction (Prebuilt "swaptx1"); ESetLastTx "signature1";
     ESetShowModal true;
     EToast success "Swap sent! Click to view on Solscan."
            (Some "https://solscan.io/tx/signature1");
     ERefresh; ERefreshBalances].
Proof. reflexivity. Qed.

Example doSwap_same_mint_sample :
  trace (doSwap "SOL" sample_parseFloat sample_failure_text
           sample_state_same_mint sample_world)
  = [EToast error "Select two different tokens." None].
Proof. reflexivity. Qed.

Lemma C3_withdraw_witness :
  (exists a : Z,
      Page.lamports_of_input sample_parseFloat (wdSol sample_state) = of_Z a /\ 0 < a)
  /\ rejected (sendWithdrawSol sample_parseFloat sample_trim sample_PublicKey_new
                 sample_needUi sample_transfer_accepts sample_state_short sample_world).
Proof.
  pose proof (C3_withdraw_needs_amount_fee_and_buffer
                sample_parseFloat sample_trim sample_PublicKey_new sample_needUi
                sample_transfer_accepts sample_state sample_world) as [Hsend _].
  pose proof (C3_withdraw_needs_amount_fee_and_buffer
                sample_parseFloat sample_trim sample_PublicKey_new sample_needUi
                sample_transfer_accepts sample_state_short sample_world) as [_ Hreject].
  split.
  - destruct (Hsend eq_refl) as (pk & toPk & a & fee & bh & _ & _ & Ha & Hpos & _).
    exists a. split; assumption.
  - apply Hreject. right; right; right.
    exists "Dest1111", (inject_Z 5000). repeat split; reflexivity.
Defined.

Lemma C8_withdraw_amount_witness :
  Page.lamports_of_input sample_parseFloat (wdSol sample_state) = of_Z 100000000
  /\ rejected (sendWithdrawSol sample_parseFloat sample_trim sample_PublicKey_new
                 sample_needUi sample_transfer_accepts sample_state_bad_amount sample_world).
Proof.
  pose proof (C8_withdraw_amount_in_lamports
                sample_parseFloat sample_trim sample_PublicKey_new sample_needUi
                sample_transfer_accepts sample_state sample_world) as (_ & Hfin & _).
  pose proof (C8_withdraw_amount_in_lamports
                sample_parseFloat sample_trim sample_PublicKey_new sample_needUi
                sample_transfer_accepts sample_state_bad_amount sample_world) as (_ & _ & Hbad & _).
  split.
  - destruct (Hfin _ eq_refl) as [_ Hpos].
    destruct (Hpos eq_refl) as (_ & Hr & _).
    exact (Hr _ eq_refl).
  - apply Hbad. reflexivity.
Defined.

Lemma C6_doSwap_witness :
  rejected (doSwap "SOL" sample_parseFloat sample_failure_text
              sample_state_same_mint sample_world)
  /\ ((inMintStr sample_state = "SOL" /\ outMintStr sample_state = "TROLL") \/
      (inMintStr sample_state = "TROLL" /\ outMintStr sample_state = "SOL")).
Proof.
  pose proof (C6_doSwap_single_pair "SOL" "TROLL" sample_parseFloat sample_failure_text
                sample_state_same_mint sample_world) as (Hsame & _).
  pose proof (C6_doSwap_single_pair "SOL" "TROLL" sample_parseFloat sample_failure_text
                sample_state sample_world) as (_ & _ & Hpair).
  split.
  - apply Hsame. reflexivity.
  - apply Hpair; [apply reach_init|reflexivity].
Defined.

End PageFacts.

(** ** The account-change subscription effect *)
Module BalanceEffectFacts.

Import BalanceEffect.



Section Effect.

Variable answers : Answers.









Hypothesis sol_ok : sol_subscription answers <> None.
Hypothesis troll_ok : troll_subscription answers <> None.








End Effect.


Section Run.

Variable a : Answers.













End Run.



(** *** A cleanup that comes while the body still waits *)


















End BalanceEffectFacts.

(** ** The proxy routes: the upstream request and the success path *)
Module RouteMoreFacts.

Import Route RouteMore HeadersFacts RouteFacts.

Lemma same_name_sym (a b : string) : Headers.same_name a b = Headers.same_name b a.
Proof. unfold Headers.same_name. apply String.eqb_sym. Qed.

Lemma fold_append_id {A : Type} (l acc : list A) :
  fold_left (fun acc kv => List.app acc [kv]) l acc = List.app acc l.
Proof.
  revert acc. induction l as [|x l IH]; intros acc; simpl.
  - now rewrite app_nil_r.
  - rewrite IH, <- app_assoc. reflexivity.
Qed.

Section Upstream.

Variable env : option string.
Variable request : NextRequest.
Variable params : RouteParams.

(** The header list of the upstream request, with the three lookups named. *)
Lemma up_headers_unfold :
  up_headers (upstream_request env request params) =
  let pick (h : Headers.t) (name : string) :=
    match Headers.get (req_headers request) name with
    | Some value => if String.eqb value "" then h else Headers.set h name value
    | None => h
    end in
  let h := pick (pick (pick Headers.empty "content-type") "accept") "authorization" in
  if negb (Headers.has h "accept") then Headers.set h "accept" "application/json" else h.
Proof. reflexivity. Qed.

(** X1.  Nothing but content-type, accept and authorization reaches the
    upstream: whatever the client sends under another name (cookies,
    forwarding headers) is not in the upstream request. *)
Theorem upstream_headers_only_forwarded (name : string) :
  not_forwarded name = true ->
  Headers.get (up_headers (upstream_request env request params)) name = None.
Proof.
  intros H. unfold not_forwarded in H. simpl in H.
  repeat (apply andb_true_iff in H; destruct H as [?H H]).
  apply negb_true_iff in H0, H1, H2.
  rewrite up_headers_unfold. cbv beta zeta.
  destruct (Headers.get (req_headers request) "content-type") as [v1|];
    destruct (Headers.get (req_headers request) "accept") as [v2|];
    destruct (Headers.get (req_headers request) "authorization") as [v3|];
    try destruct (String.eqb v1 ""); try destruct (String.eqb v2 "");
    try destruct (String.eqb v3 "");
    match goal with
    | |- context [if negb ?b then _ else _] => destruct b
    end; simpl negb; cbv iota;
    repeat (rewrite get_set_other by assumption); reflexivity.
Qed.

(** X2.  A forwarded header arrives with the value the client gave it; in
    particular the client's accept header takes the place of the default. *)
Theorem upstream_headers_verbatim (name value : string) :
  In name forwardHeaders ->
  Headers.get (req_headers request) name = Some value ->
  value <> "" ->
  Headers.get (up_headers (upstream_request env request params)) name = Some value.
Proof.
  intros Hin Hget Hne. apply String.eqb_neq in Hne.
  rewrite up_headers_unfold. cbv beta zeta.
  destruct Hin as [<-|[<-|[<-|[]]]]; rewrite Hget, Hne.
  - destruct (Headers.get (req_headers request) "accept") as [v2|];
      destruct (Headers.get (req_headers request) "authorization") as [v3|];
      try destruct (String.eqb v2 ""); try destruct (String.eqb v3 "");
      match goal with
      | |- context [if negb ?b then _ else _] => destruct b
      end; simpl negb; cbv iota;
      repeat (rewrite get_set_other by reflexivity);
      now rewrite get_set_same by reflexivity.
  - set (h1 := match Headers.get (req_headers request) "content-type" with
               | Some v => _
               | None => _
               end).
    assert (Hacc : forall h, Headers.has (Headers.set h "accept" value) "accept" = true).
    { intros h. destruct (Headers.has _ "accept") eqn:Hh; [reflexivity|].
      apply has_get in Hh. now rewrite get_set_same in Hh by reflexivity. }
    assert (Hkeep : forall h k v, Headers.same_name k "accept" = false ->
                                  Headers.has h "accept" = true ->
                                  Headers.has (Headers.set h k v) "accept" = true).
    { intros h k v Hk Hh. destruct (Headers.has (Headers.set h k v) "accept") eqn:Hs;
        [reflexivity|].
      apply has_get in Hs. rewrite get_set_other in Hs by exact Hk.
      apply has_get in Hs. congruence. }
    destruct (Headers.get (req_headers request) "authorization") as [v3|];
      try destruct (String.eqb v3 "");
      rewrite ?Hkeep, ?Hacc by (reflexivity || apply Hacc); simpl negb; cbv iota;
      repeat (rewrite get_set_other by reflexivity);
      now rewrite get_set_same by reflexivity.
  - destruct (Headers.get (req_headers request) "content-type") as [v1|];
      destruct (Headers.get (req_headers request) "accept") as [v2|];
      try destruct (String.eqb v1 ""); try destruct (String.eqb v2 "");
      match goal with
      | |- context [if negb ?b then _ else _] => destruct b
      end; simpl negb; cbv iota;
      repeat (rewrite get_set_other by reflexivity);
      now rewrite get_set_same by reflexivity.
Qed.

(** X3.  The upstream request has the client's method and query parameters, in
    their order and with repetitions; it has a body only for a method other
    than GET, HEAD and OPTIONS, and then only a non-empty one, which is the
    text of the client's body. *)
Theorem upstream_method_query_body :
  up_method (upstream_request env request params) = req_method request /\
  url_searchParams (up_url (upstream_request env request params))
  = req_searchParams request /\
  up_body (upstream_request env request params) <> Some "" /\
  (bodyless (req_method request) = true ->
   up_body (upstream_request env request params) = None) /\
  (bodyless (req_method request) = false -> req_text request <> "" ->
   up_body (upstream_request env request params) = Some (req_text request)).
Proof.
  unfold upstream_request, bodyless. cbv zeta. simpl up_method. simpl up_body.
  simpl url_searchParams. rewrite fold_append_id. simpl List.app.
  destruct (String.eqb (req_method request) "GET");
    destruct (String.eqb (req_method request) "HEAD");
    destruct (String.eqb (req_method request) "OPTIONS"); simpl;
    destruct (String.eqb (req_text request) "") eqn:Ht;
    repeat split; try discriminate; try reflexivity;
    try (intros _ Hne; apply String.eqb_eq in Ht; contradiction);
    try (intros [= Hs]; apply String.eqb_neq in Ht; congruence).
Qed.

End Upstream.

Lemma upstream_headers_only_forwarded_witness :
  Headers.get (up_headers (upstream_request None sample_cookie_request sample_params))
              "cookie" = None
  /\ Headers.get (up_headers (upstream_request None sample_cookie_request sample_params))
                 "x-forwarded-for" = None.
Proof.
  split; apply upstream_headers_only_forwarded; reflexivity.
Defined.

Lemma upstream_headers_verbatim_witness :
  Headers.get (up_headers (upstream_request None sample_cookie_request sample_params))
              "authorization" = Some "Bearer t"
  /\ Headers.get (up_headers (upstream_request None sample_cookie_request sample_params))
                 "accept" = Some "text/plain".
Proof.
  split; apply upstream_headers_verbatim;
    try reflexivity; try discriminate; simpl; tauto.
Defined.

Lemma upstream_method_query_body_witness :
  up_body (upstream_request None sample_cookie_request sample_params) = Some "{}"
  /\ up_body (upstream_request None sample_request sample_params) = None.
Proof.
  split.
  - apply (proj2 (proj2 (proj2 (proj2
             (upstream_method_query_body None sample_cookie_request sample_params)))));
      [reflexivity|discriminate].
  - apply (proj1 (proj2 (proj2 (proj2
             (upstream_method_query_body None sample_request sample_params))))).
    reflexivity.
Defined.



Lemma strip_append_slash (s : string) : strip_trailing_slash (s ++ "/") = s.
Proof.
  induction s as [|c s IH]; [reflexivity|].
  change (String c s ++ "/") with (String c (s ++ "/")).
  destruct s as [|c' s']; [reflexivity|].
  change (String c' s' ++ "/") with (String c' (s' ++ "/")) in *.
  simpl. simpl in IH. now rewrite IH.
Qed.

Lemma strip_no_slash (s : string) :
  ends_with_slash s = false -> strip_trailing_slash s = s.
Proof.
  induction s as [|c s IH]; [reflexivity|].
  destruct s as [|c' s']; simpl.
  - intros ->. reflexivity.
  - intros H. simpl in IH. now rewrite (IH H).
Qed.

(** X5.  The base of the upstream URL does not depend on whether
    JUPITER_UPSTREAM_URL is written with a trailing slash: exactly one
    trailing slash is removed, and the handler adds its own. *)
Theorem upstream_base_trailing_slash
  (u : string) (request : NextRequest) (params : RouteParams) :
  UPSTREAM_BASE (Some (u ++ "/")) = u /\
  (ends_with_slash u = false ->
   UPSTREAM_BASE (Some u) = u /\
   up_url (upstream_request (Some (u ++ "/")) request params)
   = up_url (upstream_request (Some u) request params)).
Proof.
  split; [apply strip_append_slash|].
  intros H. assert (Hu : UPSTREAM_BASE (Some u) = u) by now apply strip_no_slash.
  split; [exact Hu|].
  unfold upstream_request. cbv zeta. simpl up_url.
  now rewrite Hu, (strip_append_slash u : UPSTREAM_BASE (Some (u ++ "/")) = u).
Qed.

Lemma upstream_base_trailing_slash_witness :
  UPSTREAM_BASE (Some "https://quote.example/v1/") = "https://quote.example/v1"
  /\ UPSTREAM_BASE (Some "https://quote.example/v1") = "https://quote.example/v1".
Proof.
  destruct (upstream_base_trailing_slash "https://quote.example/v1" sample_request
              sample_params) as [H1 H2].
  split; [exact H1|]. apply H2. reflexivity.
Defined.

End RouteMoreFacts.

(** ** The fetch patch *)
Module FetchPatchFacts.

Import FetchPatch RouteMore RouteMoreFacts.

Lemma prefix_app (p rest : string) : String.prefix p (p ++ rest) = true.
Proof.
  induction p as [|c p IH]; simpl; [now destruct rest|].
  destruct (ascii_dec c c) as [_|Hne]; [exact IH|contradiction].
Qed.

Lemma slice_app (p rest : string) : slice (String.length p) (p ++ rest) = rest.
Proof. induction p as [|c p IH]; simpl; [now destruct rest|exact IH]. Qed.

Lemma no_slash_after (a b : string) :
  b <> "" -> ends_with_slash b = false -> ends_with_slash (a ++ b) = false.
Proof.
  intros Hb Hs. induction a as [|c a IH]; [exact Hs|].
  change (String c a ++ b) with (String c (a ++ b)).
  destruct (a ++ b) eqn:Hab; [|exact IH].
  destruct a; simpl in Hab; [contradiction|discriminate].
Qed.

Lemma legacy_value : legacy = JUPITER_LEGACY_BASE.
Proof. reflexivity. Qed.

Section Patch.

Variable Others : Type.
Variable env : option string.
Variable w : Window Others.
Hypothesis unpatched : jupiterQuotePatched w = false.

(** X6.  After the patch, a fetch of a string or URL that starts with the legacy
    base goes to the target base followed by the same rest, with the same
    init; a fetch of anything that does not start with the legacy base is
    handed on unchanged. *)
Theorem patch_rewrites_legacy_prefix :
  exists w',
    patchJupiterQuoteEndpoint env (Some w) = Some w' /\
    jupiterQuotePatched w' = true /\
    (forall rest init,
        fetch w' (InString (JUPITER_LEGACY_BASE ++ rest)) init
        = fetch w (InString (targetBase env w ++ rest)) init /\
        fetch w' (InURL (JUPITER_LEGACY_BASE ++ rest)) init
        = fetch w (InString (targetBase env w ++ rest)) init) /\
    (forall url init,
        String.prefix JUPITER_LEGACY_BASE url = false ->
        fetch w' (InString url) init = fetch w (InString url) init /\
        fetch w' (InURL url) init = fetch w (InURL url) init /\
        forall request,
          rq_url request = url ->
          fetch w' (InRequest request) init = fetch w (InRequest request) init).
Proof.
  unfold patchJupiterQuoteEndpoint. rewrite unpatched.
  eexists. split; [reflexivity|]. split; [reflexivity|]. split.
  - intros rest init. cbn [fetch patched_fetch]. rewrite legacy_value.
    rewrite prefix_app. unfold rewrite. rewrite legacy_value, slice_app.
    split; reflexivity.
  - intros url init Hno. cbn [fetch patched_fetch]. rewrite legacy_value, Hno.
    repeat split. intros request ->. now rewrite Hno.
Qed.

(** X7.  A [Request] for a legacy URL is replaced by a call with the rewritten URL
    and an init: the caller's init if there is one, else the method and the
    copied properties of the request; the method of the request fills in for
    a missing one.  The body of the request is not among what is copied. *)
Theorem patch_request_keeps_method (request : Request Others) (rest : string) :
  rq_url request = JUPITER_LEGACY_BASE ++ rest ->
  fetch (mkWindow (origin w) (patched_fetch env w) true) (InRequest request) None
  = fetch w (InString (targetBase env w ++ rest))
          (Some (mkInit (Some (rq_method request)) None (rq_others request))) /\
  forall init,
    fetch (mkWindow (origin w) (patched_fetch env w) true) (InRequest request) (Some init)
    = fetch w (InString (targetBase env w ++ rest))
            (Some (mkInit (if no_method Others init then Some (rq_method request)
                           else ri_method init)
                          (ri_body init) (ri_others init))).
Proof.
  intros Hurl. cbn [fetch patched_fetch]. rewrite Hurl, legacy_value, prefix_app.
  unfold rewrite. rewrite legacy_value, slice_app. split.
  - unfold no_method. cbn [ri_method ri_body ri_others].
    destruct (String.eqb (rq_method request) ""); reflexivity.
  - intros init. destruct (no_method Others init) eqn:Hm; [reflexivity|].
    destruct init; reflexivity.
Qed.

End Patch.

(** Patching is done once: on the server there is nothing to patch, and a
    window that has been patched is left as it is, whatever the environment
    says the second time. *)
Lemma patch_once (Others : Type) (env env' : option string) (w : Window Others) :
  patchJupiterQuoteEndpoint env None = @None (Window Others) /\
  (forall w1,
      patchJupiterQuoteEndpoint env (Some w) = Some w1 ->
      jupiterQuotePatched w1 = true /\
      patchJupiterQuoteEndpoint env' (Some w1) = Some w1).
Proof.
  split; [reflexivity|]. intros w1. unfold patchJupiterQuoteEndpoint.
  destruct (jupiterQuotePatched w) eqn:Hp; intros [= <-].
  - rewrite Hp. split; reflexivity.
  - split; reflexivity.
Qed.

(** X8.  Where the rewritten calls go: with no NEXT_PUBLIC_JUPITER_QUOTE_URL, to
    the route /api/jupiter of the page's own origin; with an absolute http or
    https URL, in any letter case, to that URL without its trailing slash,
    whatever the origin. *)
Theorem patch_target (Others : Type) (w : Window Others) :
  targetBase None w = origin w ++ "/api/jupiter" /\
  (forall u,
      is_absolute_http u = true -> ends_with_slash u = false ->
      targetBase (Some u) w = u /\ targetBase (Some (u ++ "/")) w = u).
Proof.
  split.
  - unfold targetBase. simpl. apply strip_no_slash.
    apply no_slash_after; [discriminate|reflexivity].
  - intros u Habs Hs. unfold targetBase, JUPITER_QUOTE_API.
    rewrite strip_append_slash, (strip_no_slash u Hs), Habs, (strip_no_slash u Hs).
    split; reflexivity.
Qed.

Lemma patch_rewrites_legacy_prefix_witness :
  exists w',
    patchJupiterQuoteEndpoint None (Some sample_window) = Some w' /\
    fetch w' (InString "https://lite-api.jup.ag/swap/v1/quote?amount=1") None
    = mkCall (InString "https://trollswap.example/api/jupiter/quote?amount=1") None /\
    fetch w' (InString "https://price.jup.ag/v4/price") None
    = mkCall (InString "https://price.jup.ag/v4/price") None.
Proof.
  destruct (patch_rewrites_legacy_prefix unit None sample_window eq_refl)
    as (w' & Hw & _ & Hre & Hno).
  exists w'. split; [exact Hw|]. split.
  - exact (proj1 (Hre "/quote?amount=1" None)).
  - exact (proj1 (Hno "https://price.jup.ag/v4/price" None eq_refl)).
Defined.

Lemma patch_request_keeps_method_witness :
  fetch (mkWindow (origin sample_window) (patched_fetch None sample_window) true)
        (InRequest sample_post_request) None
  = mkCall (InString "https://trollswap.example/api/jupiter/swap")
           (Some (mkInit (Some "POST") None tt)).
Proof.
  exact (proj1 (patch_request_keeps_method unit None sample_window
                  sample_post_request "/swap" eq_refl)).
Defined.

Lemma patch_target_witness :
  targetBase (Some "HTTPS://Quote.Example/v6/") sample_window = "HTTPS://Quote.Example/v6".
Proof.
  apply (proj2 (patch_target unit sample_window) "HTTPS://Quote.Example/v6");
    reflexivity.
Defined.

End FetchPatchFacts.

(** ** The toast list *)
Module ToastsFacts.

Import Toasts.

Lemma ids_without (i : nat) (l : list Toast) :
  map id (without i l) = filter (fun j => negb (Nat.eqb j i)) (map id l).
Proof.
  unfold without. induction l as [|t l IH]; simpl; [reflexivity|].
  destruct (Nat.eqb (id t) i); simpl; now rewrite IH.
Qed.

Lemma sorted_filter (f : nat -> bool) (l : list nat) :
  StronglySorted lt l -> StronglySorted lt (filter f l).
Proof.
  induction 1 as [|x l Hs IH Hx]; simpl; [constructor|].
  destruct (f x); [|exact IH].
  constructor; [exact IH|].
  apply Forall_forall. intros y Hy. apply filter_In in Hy.
  rewrite Forall_forall in Hx. now apply Hx.
Qed.

Lemma sorted_snoc (l : list nat) (n : nat) :
  StronglySorted lt l -> Forall (fun i => (i < n)%nat) l ->
  StronglySorted lt (l ++ [n]).
Proof.
  induction 1 as [|x l Hs IH Hx]; intros Hb; simpl.
  - constructor; constructor.
  - inversion Hb as [|? ? Hxn Hl]; subst.
    constructor; [now apply IH|].
    apply Forall_app. split; [exact Hx|]. constructor; [exact Hxn|constructor].
Qed.

Lemma ordered_without (st : ToastState) (i : nat) (tm : list Timer) :
  ordered st -> ordered (mkToastState (without i (toasts st)) (toastIdRef st) tm).
Proof.
  intros (Hs & Hb & H1). unfold ordered, ids in *. simpl.
  rewrite ids_without. split; [now apply sorted_filter|]. split; [|exact H1].
  apply Forall_forall. intros y Hy. apply filter_In in Hy.
  rewrite Forall_forall in Hb. now apply Hb.
Qed.

Lemma ordered_step (st : ToastState) (o : op) : ordered st -> ordered (step st o).
Proof.
  intros Hst. destruct o as [k m h|i|i]; simpl.
  - destruct Hst as (Hs & Hb & H1). unfold ordered, ids in *. simpl.
    rewrite map_app. simpl. split; [|split; [|lia]].
    + apply sorted_snoc; [exact Hs|].
      eapply Forall_impl; [|exact Hb]. simpl. intros a Ha. lia.
    + apply Forall_app. split.
      * eapply Forall_impl; [|exact Hb]. simpl. intros a Ha. lia.
      * constructor; [lia|constructor].
  - now apply ordered_without.
  - unfold expire. destruct (pending st i); [now apply ordered_without|exact Hst].
Qed.

Lemma ordered_fold (ops : list op) (st : ToastState) :
  ordered st -> ordered (fold_left step ops st).
Proof.
  revert st. induction ops as [|o ops IH]; intros st H; simpl; [exact H|].
  apply IH. now apply ordered_step.
Qed.

Lemma ordered_initial : ordered initial.
Proof. repeat split; simpl; try constructor; lia. Qed.

Lemma in_without (i : nat) (l : list Toast) (t : Toast) :
  In t (without i l) <-> In t l /\ id t <> i.
Proof.
  unfold without. rewrite filter_In. rewrite negb_true_iff, Nat.eqb_neq. tauto.
Qed.

Lemma pending_in (st : ToastState) (i : nat) (ms : Z) :
  In (mkTimer i ms) (timers st) -> pending st i = true.
Proof.
  intros H. unfold pending. apply existsb_exists. eexists. split; [exact H|].
  simpl. apply Nat.eqb_refl.
Qed.

Lemma timed_step (st : ToastState) (o : op) : timed st -> timed (step st o).
Proof.
  intros Hst. destruct o as [k m h|i|i]; simpl; unfold timed in *; simpl.
  - intros t Ht. apply in_app_or in Ht. apply in_or_app.
    destruct Ht as [Ht|[<-|[]]]; [left; now apply Hst|right; simpl; now left].
  - intros t Ht. apply in_without in Ht. now apply Hst.
  - unfold expire. destruct (pending st i); [|exact Hst]. simpl.
    intros t Ht. apply in_without in Ht. destruct Ht as [Ht Hne].
    apply filter_In. split; [now apply Hst|]. simpl.
    now rewrite negb_true_iff, Nat.eqb_neq.
Qed.

Lemma timed_fold (ops : list op) (st : ToastState) :
  timed st -> timed (fold_left step ops st).
Proof.
  revert st. induction ops as [|o ops IH]; intros st H; simpl; [exact H|].
  apply IH. now apply timed_step.
Qed.

(** X9.  Whatever is pushed, dismissed or timed out, the toasts on screen
    carry strictly increasing ids, all at least 1 and below the counter: no
    two toasts share an id (their React key), and they are shown oldest
    first. *)
Theorem toast_ids_increase (ops : list op) :
  StronglySorted lt (ids (run ops)) /\
  NoDup (ids (run ops)) /\
  Forall (fun i => (1 <= i < toastIdRef (run ops))%nat) (ids (run ops)).
Proof.
  destruct (ordered_fold ops initial ordered_initial) as (Hs & Hb & _).
  fold (run ops) in Hs, Hb. split; [exact Hs|]. split; [|exact Hb].
  clear Hb. induction Hs as [|x l Hs IH Hx]; constructor; [|exact IH].
  intros Hin. rewrite Forall_forall in Hx. specialize (Hx x Hin). lia.
Qed.

(** X10.  Every toast on screen has its 4500 ms timer pending, so it leaves
    the screen without the user; and when that timer fires the toast is
    gone. *)
Theorem toast_always_timed (ops : list op) (t : Toast) :
  In t (toasts (run ops)) ->
  In (mkTimer (id t) 4500) (timers (run ops)) /\
  ~ In (id t) (ids (expire (run ops) (id t))).
Proof.
  intros Ht.
  assert (Htm : In (mkTimer (id t) 4500) (timers (run ops))).
  { apply (timed_fold ops initial); [intros ? []|exact Ht]. }
  split; [exact Htm|].
  unfold expire. rewrite (pending_in _ _ _ Htm). unfold ids. simpl.
  rewrite ids_without. intros Hin. apply filter_In in Hin.
  destruct Hin as [_ Hin]. now rewrite Nat.eqb_refl in Hin.
Qed.

Lemma toast_always_timed_witness :
  In (mkToast 2 Page.error "Swap failed to send." None) (toasts (run sample_ops)) /\
  In (mkTimer 2 4500) (timers (run sample_ops)).
Proof.
  assert (H : In (mkToast 2 Page.error "Swap failed to send." None)
                 (toasts (run sample_ops))) by (vm_compute; now left).
  split; [exact H|].
  exact (proj1 (toast_always_timed sample_ops _ H)).
Defined.

Lemma without_absent (i : nat) (l : list Toast) :
  ~ In i (map id l) -> without i l = l.
Proof.
  unfold without. induction l as [|t l IH]; simpl; intros H; [reflexivity|].
  destruct (Nat.eqb_spec (id t) i) as [E|E]; [exfalso; apply H; now left|].
  simpl. f_equal. apply IH. intros Hin. apply H. now right.
Qed.

(** X11.  Dismissing a toast removes that toast and no other: the ones
    before and after it stay, in order.  Dismissing an id that is not on
    screen (already dismissed or timed out) changes nothing. *)
Theorem dismiss_removes_exactly_one (ops : list op) :
  (forall l1 t l2, toasts (run ops) = (l1 ++ t :: l2)%list ->
     toasts (dismissToast (run ops) (id t)) = (l1 ++ l2)%list) /\
  (forall i, ~ In i (ids (run ops)) -> dismissToast (run ops) i = run ops).
Proof.
  split.
  - intros l1 t l2 E.
    destruct (toast_ids_increase ops) as (_ & Hnd & _).
    unfold ids in Hnd. rewrite E in Hnd. rewrite map_app in Hnd. simpl in Hnd.
    apply NoDup_remove_2 in Hnd.
    unfold dismissToast. simpl. rewrite E. unfold without.
    rewrite filter_app. simpl. rewrite Nat.eqb_refl. simpl.
    fold (without (id t) l1). fold (without (id t) l2).
    rewrite !without_absent; [reflexivity| |];
      intros Hin; apply Hnd; apply in_or_app; [now right|now left].
  - intros i Hi. unfold dismissToast. unfold ids in Hi.
    rewrite (without_absent _ _ Hi). now destruct (run ops).
Qed.

Lemma dismiss_removes_exactly_one_witness :
  toasts (dismissToast (run sample_ops) 2)
  = [mkToast 3 Page.success "Swap sent!" (Some "https://solscan.io/tx/s")].
Proof.
  exact (proj1 (dismiss_removes_exactly_one sample_ops) []
               (mkToast 2 Page.error "Swap failed to send." None)
               [mkToast 3 Page.success "Swap sent!" (Some "https://solscan.io/tx/s")]
               eq_refl).
Defined.

End ToastsFacts.

(** ** The amount field *)
Module AmountsFacts.

Import Js JsMath Amounts.

Local Open Scope Q_scope.

Lemma Qle_bool_false (a b : Q) : Qle_bool a b = false -> b < a.
Proof.
  intros H. apply Qnot_le_lt. intros Hle.
  apply Qle_bool_iff in Hle. congruence.
Qed.

(** [clamp(n, lo, hi)] with finite [lo <= hi]: any [n] but NaN comes out as a
    finite number between [lo] and [hi], unchanged if it was in that range. *)
Lemma clamp_fin (lo hi : Q) (n : number) :
  lo <= hi -> n <> NaN ->
  exists q, clamp n (Fin lo) (Fin hi) = Fin q /\ lo <= q /\ q <= hi /\
            (forall x, n = Fin x -> lo <= x -> x <= hi -> q == x).
Proof.
  intros Hlh Hn. unfold clamp.
  destruct n as [| | |x]; [congruence| | |]; simpl.
  - exists hi. repeat split; [exact Hlh|apply Qle_refl|discriminate].
  - destruct (Qle_bool hi lo) eqn:E.
    + exists hi. repeat split; [exact Hlh|apply Qle_refl|discriminate].
    + exists lo. repeat split; [apply Qle_refl|exact Hlh|discriminate].
  - destruct (Qle_bool lo x) eqn:E1; simpl.
    + apply Qle_bool_iff in E1. destruct (Qle_bool hi x) eqn:E2.
      * apply Qle_bool_iff in E2. exists hi.
        repeat split; [exact Hlh|apply Qle_refl|].
        intros y [= ->] _ Hy. now apply Qle_antisym.
      * apply Qle_bool_false in E2. exists x.
        repeat split; [exact E1|now apply Qlt_le_weak|].
        intros y [= ->] _ _. reflexivity.
    + apply Qle_bool_false in E1. destruct (Qle_bool hi lo) eqn:E2.
      * apply Qle_bool_iff in E2. exists hi.
        repeat split; [exact Hlh|apply Qle_refl|].
        intros y [= ->] Hy _. exfalso. apply (Qlt_irrefl y).
        now apply Qlt_le_trans with lo.
      * exists lo. repeat split; [apply Qle_refl|exact Hlh|].
        intros y [= ->] Hy _. exfalso. apply (Qlt_irrefl y).
        now apply Qlt_le_trans with lo.
Qed.

Lemma clamp_cases (lo hi : Q) (n : number) :
  lo <= hi ->
  clamp n (Fin lo) (Fin hi) = NaN \/
  exists q, clamp n (Fin lo) (Fin hi) = Fin q /\ lo <= q /\ q <= hi.
Proof.
  intros H. destruct n as [| | |x] eqn:E; [now left| | |]; right.
  - destruct (clamp_fin lo hi PosInf H) as (q & ? & ? & ? & _); [discriminate|eauto].
  - destruct (clamp_fin lo hi NegInf H) as (q & ? & ? & ? & _); [discriminate|eauto].
  - destruct (clamp_fin lo hi (Fin x) H) as (q & ? & ? & ? & _); [discriminate|eauto].
Qed.

Section Input.

Variable SOL : string.
Variable parseFloat : string -> number.

Lemma round_percent (q : Q) :
  0 <= q -> q <= 100 -> exists z, (0 <= z <= 100)%Z /\ round (Fin q) = of_Z z.
Proof.
  intros H0 H1. exists (Qfloor (q + (1 # 2))). split; [|reflexivity]. split.
  - change 0%Z with (Qfloor (1 # 2)). apply Qfloor_resp_le.
    rewrite <- (Qplus_0_l (1 # 2)) at 1. apply Qplus_le_compat; [exact H0|apply Qle_refl].
  - change 100%Z with (Qfloor (100 + (1 # 2))). apply Qfloor_resp_le.
    apply Qplus_le_compat; [exact H1|apply Qle_refl].
Qed.

(** X13.  Whatever is typed into the amount field and whatever the balances
    are, the percent the handler sets is NaN or a whole number from 0 to
    100; it is 0 when nothing can be spent. *)
Theorem typed_percent_is_a_percentage
        (text inMintStr : string) (solBalance trollBalance : number) :
  let p := typed_percent SOL parseFloat text inMintStr solBalance trollBalance in
  (p = NaN \/ exists z, (0 <= z <= 100)%Z /\ p = of_Z z) /\
  (lt (of_Z 0) (base SOL inMintStr solBalance trollBalance) = false -> p = of_Z 0).
Proof.
  intros p. subst p. unfold typed_percent. cbv zeta.
  destruct (lt (of_Z 0) (base SOL inMintStr solBalance trollBalance)).
  - split; [|discriminate].
    assert (H : 0 <= 100) by (vm_compute; discriminate).
    destruct (clamp_cases 0 100
                (mul (div (parseFloat (Page.or_zero text))
                          (base SOL inMintStr solBalance trollBalance)) (of_Z 100)) H)
      as [E|(q & E & H0 & H1)];
      change (Fin 0) with (of_Z 0) in E; change (Fin 100) with (of_Z 100) in E;
      rewrite E.
    + now left.
    + right. now apply round_percent.
  - split; [|reflexivity]. right. exists 0%Z. split; [lia|reflexivity].
Qed.

End Input.

Lemma typed_percent_witness :
  typed_percent "So11" Page.sample_parseFloat "5" "Troll" (Fin 1) (Fin 0) = of_Z 0.
Proof.
  apply (typed_percent_is_a_percentage "So11" Page.sample_parseFloat "5" "Troll"
           (Fin 1) (Fin 0)).
  reflexivity.
Defined.

End AmountsFacts.

(** ** refreshBalances *)
Module BalancesFacts.

Import Js JsMath Balances.

Lemma parsed_uiAmount_total (d : value) : parsed_uiAmount d <> TypeError.
Proof.
  unfold parsed_uiAmount.
  destruct d as [| |b|n|s|b|fields]; simpl; try discriminate.
  - destruct b; discriminate.
  - destruct n as [| | |q]; simpl; try discriminate.
    destruct (Qeq_bool q 0); discriminate.
  - destruct (String.eqb s ""); discriminate.
  - destruct (lookup "parsed" fields) as [p|]; [|discriminate].
    destruct (get_prop_opt (get_prop_opt (get_prop_opt p "info") "tokenAmount") "uiAmount");
      discriminate.
Qed.

(** X14.  Reading the balance out of the account data never throws, whatever
    the data is, and on a raw [Buffer] it finds nothing: the balance then
    comes from one [getTokenAccountBalance] call for the first account, and
    is 0 when that call fails or answers null. *)
Theorem refresh_balance_of_raw_account
        (pk : PublicKey) (r : Rpc) (s : Store) (lamports : number) (v : value)
        (acct : TokenAccount) (rest : list TokenAccount) (bytes : string) :
  (forall d, parsed_uiAmount d <> TypeError) /\
  (getBalance r = Page.Fulfilled lamports ->
   getParsedAccountInfo r = Page.Fulfilled v ->
   getTokenAccountsByOwner r = Page.Fulfilled (acct :: rest) ->
   account_data acct = JBuffer bytes ->
   snd (refreshBalances (Some pk) r s)
   = [GetBalance pk; GetParsedAccountInfo; GetTokenAccountsByOwner pk;
      GetTokenAccountBalance (pubkey acct)] /\
   trollAcctRef (fst (refreshBalances (Some pk) r s)) = Some (pubkey acct) /\
   trollBalance (fst (refreshBalances (Some pk) r s))
   = match getTokenAccountBalance r (pubkey acct) with
     | Page.Fulfilled (Some n) => n
     | _ => of_Z 0
     end).
Proof.
  split; [exact parsed_uiAmount_total|].
  intros Hb Hi Ha Hd. unfold refreshBalances. rewrite Hb, Hi, Ha, Hd.
  destruct (PageFacts.getMintDecimals_total v) as [dec ->].
  simpl. repeat split.
Qed.

Lemma refresh_balance_of_raw_account_witness :
  trollBalance (fst (refreshBalances (Some "Owner11") sample_rpc sample_store)) = of_Z 5.
Proof.
  exact (proj2 (proj2 (proj2 (refresh_balance_of_raw_account
           "Owner11" sample_rpc sample_store (of_Z 2000000000) JNull
           (mkTokenAccount "TrollAcct11" (JBuffer "raw"))
           [mkTokenAccount "TrollAcct22" (JBuffer "raw")] "raw")
           eq_refl eq_refl eq_refl eq_refl))).
Defined.

(** X15.  With a wallet connected, a refresh changes a part of the store only
    after the call it comes from has succeeded: the SOL balance after
    [getBalance], the decimals after the mint query as well, and the TROLL
    balance and the tracked token account only after the owner query as
    well.  A failed call leaves the later parts as they were. *)
Theorem refresh_changes_only_after_success (pk : PublicKey) (r : Rpc) (s : Store) :
  let s' := fst (refreshBalances (Some pk) r s) in
  (solBalance s' <> solBalance s -> exists l, getBalance r = Page.Fulfilled l) /\
  (trollDecimals s' <> trollDecimals s ->
   (exists l, getBalance r = Page.Fulfilled l) /\
   exists v, getParsedAccountInfo r = Page.Fulfilled v) /\
  (trollBalance s' <> trollBalance s \/ trollAcctRef s' <> trollAcctRef s ->
   (exists l, getBalance r = Page.Fulfilled l) /\
   (exists v, getParsedAccountInfo r = Page.Fulfilled v) /\
   exists accts, getTokenAccountsByOwner r = Page.Fulfilled accts).
Proof.
  unfold refreshBalances.
  destruct (getBalance r) as [l|e];
    [|simpl; repeat split; intros; try tauto; exfalso; tauto].
  destruct (getParsedAccountInfo r) as [v|e].
  - destruct (PageFacts.getMintDecimals_total v) as [dec ->].
    destruct (getTokenAccountsByOwner r) as [[|acct rest]|e]; simpl;
      repeat split; eauto; try tauto.
  - simpl. repeat split; eauto; intros; exfalso; tauto.
Qed.

Lemma refresh_changes_witness :
  exists accts, getTokenAccountsByOwner sample_rpc = Page.Fulfilled accts.
Proof.
  refine (proj2 (proj2 (proj2 (proj2 (refresh_changes_only_after_success
            "Owner11" sample_rpc sample_store)) _))).
  right. discriminate.
Defined.

Lemma refresh_account (pk : PublicKey) (r : Rpc) (s : Store) (a : PublicKey) :
  trollAcctRef (fst (refreshBalances (Some pk) r s)) = Some a ->
  trollAcctRef s = Some a \/
  exists acct rest, getTokenAccountsByOwner r = Page.Fulfilled (acct :: rest) /\
                    a = pubkey acct.
Proof.
  unfold refreshBalances.
  destruct (getBalance r) as [l|e]; simpl; [|now left].
  destruct (Page.getMintDecimals (getParsedAccountInfo r)); simpl; try (now left).
  destruct (getTokenAccountsByOwner r) as [[|acct rest]|e]; simpl;
    try (now left); try discriminate.
  destruct (parsed_uiAmount (account_data acct)) as [[n|]|]; simpl;
    intros [= <-]; right; eauto.
Qed.

(** X16.  In the subscription effect, with its [refreshBalances] call being
    the one above: every listener the effect adds is on the wallet itself,
    on the token account already tracked, or on the first account that the
    owner query returned; no other token account of the wallet is
    watched. *)
Theorem listeners_watch_first_account
        (WS : option string) (pk : PublicKey) (fastPoll : option positive)
        (sol troll : option nat) (h : positive) (r : Rpc) (s : Store)
        (c0 : BalanceEffect.config) (id : nat) (account : PublicKey) :
  BalanceEffect.effect (answers sol troll h pk r s) WS (Some pk) fastPoll
                       (trollAcctRef s) = Some c0 ->
  In (BalanceEffect.AddListener id account)
     (BalanceEffect.log (BalanceEffect.finish (answers sol troll h pk r s) c0)) ->
  account = pk \/ trollAcctRef s = Some account \/
  exists acct rest, getTokenAccountsByOwner r = Page.Fulfilled (acct :: rest) /\
                    account = pubkey acct.
Proof.
  pose proof (refresh_account pk r s) as Hacct.
  unfold answers.
  set (ra := trollAcctRef (fst (refreshBalances (Some pk) r s))) in *.
  clearbody ra.
  unfold BalanceEffect.effect.
  destruct WS as [ws|]; [|discriminate].
  destruct (String.eqb ws ""); [discriminate|].
  intros [= <-].
  unfold BalanceEffect.finish. simpl.
  destruct ra as [a|];
    destruct sol as [sid|]; destruct troll as [tid|];
    destruct (trollAcctRef s) as [a0|]; destruct fastPoll as [f|]; simpl;
    intros Hin;
    repeat match goal with
           | H : _ \/ _ |- _ => destruct H
           | H : False |- _ => destruct H
           | H : BalanceEffect.AddListener _ _ = BalanceEffect.AddListener _ _ |- _ =>
               injection H as <- <-
           | H : _ = BalanceEffect.AddListener _ _ |- _ => discriminate H
           end;
    try (now left); try (right; left; reflexivity);
    right; right; (destruct (Hacct _ eq_refl) as [E|E]; [discriminate E|exact E]).
Qed.

Lemma listeners_watch_first_account_witness :
  "TrollAcct11" = "Owner11" \/ trollAcctRef sample_store = Some "TrollAcct11" \/
  exists acct rest, getTokenAccountsByOwner sample_rpc = Page.Fulfilled (acct :: rest) /\
                    "TrollAcct11" = pubkey acct.
Proof.
  apply (listeners_watch_first_account (Some "wss://rpc") "Owner11" None
           (Some 7%nat) (Some 8%nat) 41%positive sample_rpc sample_store _ 8%nat
           "TrollAcct11" eq_refl).
  vm_compute. right. right. now left.
Defined.

End BalancesFacts.

(** ** doSwap, further *)

Module SwapFacts.

Import Js Page PageMore.

Section Swap.

Variable SOL : string.
Variable parseFloat : string -> number.
Variable quote_failure_text : Error -> string.

Local Abbreviation doSwap := (doSwap SOL parseFloat quote_failure_text).

(** Every path through [doSwap]. *)
Ltac swap_paths st w :=
  unfold Page.doSwap, tryFetchQuoteSafe;
  destruct (publicKey st) as [pk|]; [|simpl];
  [destruct (negb (isFinite _) || le _ _); [simpl|];
   [|destruct (lt _ _); [simpl|];
     [|destruct (bigIntIsZero _); [simpl|];
       [|destruct (String.eqb (inMintStr st) (outMintStr st)); [simpl|];
         [|destruct (quoteResponseMeta st) as [| |cb|cn|cs|cbytes|cfields] eqn:Hcache;
           try (destruct (w_fetchQuote w) as [[| |qb|qn|qs|qbytes|qfields]|equote] eqn:Hquote);
           simpl;
           repeat match goal with
                  | |- context [match w_fetchSwapTransaction w ?q with _ => _ end] =>
                      let Hb := fresh "Hbuild" in
                      destruct (w_fetchSwapTransaction w q) as [[err|swapTx]|ebuild] eqn:Hb; simpl
                  | |- context [if negb ?c then _ else _] => destruct c eqn:?; simpl
                  | |- context [or_else (w_sendTransaction w ?t) _ _] =>
                      let Hs := fresh "Hsend" in
                      destruct (w_sendTransaction w t) as [txid0|esend] eqn:Hs; simpl
                  | |- context [or_else (w_refresh w) _ _] =>
                      let Hr := fresh "Hrefresh" in
                      destruct (w_refresh w) as [[]|erefresh] eqn:Hr; simpl
                  end]]]]|].

Ltac in_cases H :=
  simpl in H;
  repeat match type of H with
         | _ \/ _ => destruct H as [H|H]
         | False => destruct H
         end;
  try discriminate H.

(** X17.  doSwap sends at most one transaction, and it is the one that
    fetchSwapTransaction built for a truthy quote: the quote of the hook
    when there is one, otherwise the quote just fetched. *)
Theorem doSwap_sends_what_was_built (st : State) (w : World) :
  (List.length (filter is_send (trace (doSwap st w))) <= 1)%nat /\
  forall tx,
    In (ESendTransaction tx) (trace (doSwap st w)) ->
    exists quote swapTransaction,
      tx = Prebuilt swapTransaction /\
      In (EFetchSwapTransaction quote) (trace (doSwap st w)) /\
      w_fetchSwapTransaction w quote = Fulfilled (inr swapTransaction) /\
      truthy quote = true /\
      (if nullish (quoteResponseMeta st)
       then w_fetchQuote w = Fulfilled quote
       else quote = quoteResponseMeta st).
Proof.
  swap_paths st w.
  all: (split; [simpl; lia|]).
  all: intros tx Hin; in_cases Hin.
  all: injection Hin as <-; do 2 eexists.
  all: (split; [reflexivity|]); (split; [simpl; tauto|]).
  all: (split; [eassumption|]); (split; [simpl; assumption || reflexivity|]).
  all: reflexivity.
Qed.

(** X18.  With a quote of the hook at hand doSwap fetches no quote, and the
    only quote it asks a transaction for is that one. *)
Theorem doSwap_reuses_cached_quote (st : State) (w : World) :
  nullish (quoteResponseMeta st) = false ->
  ~ In EFetchQuote (trace (doSwap st w)) /\
  forall q, In (EFetchSwapTransaction q) (trace (doSwap st w)) ->
            q = quoteResponseMeta st.
Proof.
  swap_paths st w.
  all: intros Hnull; try discriminate Hnull.
  all: split; [intros Hin; in_cases Hin|intros q Hin; in_cases Hin].
  all: try (now injection Hin as <-).
Qed.

(** X19.  When the quote fetch answers with nothing (null, undefined or
    another falsy value), doSwap ends after the 'Building route' toast: no
    error toast tells the user that there is no route, and no transaction
    is asked for. *)
Theorem doSwap_silent_without_route (st : State) (w : World) (q : value) :
  In EFetchQuote (trace (doSwap st w)) ->
  w_fetchQuote w = Fulfilled q ->
  truthy q = false ->
  doSwap st w = ([EToast info "Building route…" None; EFetchQuote], None).
Proof.
  swap_paths st w.
  all: intros Hin Hq Hfalsy; in_cases Hin.
  all: try reflexivity.
  all: try discriminate Hq.
  all: injection Hq as <-; simpl in Hfalsy; congruence.
Qed.

(** X20.  The promise of doSwap is rejected exactly when
    fetchSwapTransaction rejects, with that error; nothing has been sent
    then and no error toast is shown. *)
Theorem doSwap_rejects_when_build_rejects (st : State) (w : World) (e : Error) :
  (snd (doSwap st w) = Some (Some e) <->
   exists q, In (EFetchSwapTransaction q) (trace (doSwap st w)) /\
             w_fetchSwapTransaction w q = RejectedWith e) /\
  (snd (doSwap st w) = Some (Some e) ->
   existsb is_error_toast (trace (doSwap st w)) = false /\
   existsb is_send (trace (doSwap st w)) = false).
Proof.
  swap_paths st w.
  all: split; [split|].
  all: try (intros Hr; discriminate Hr).
  all: try (intros (q & Hin & Hq); in_cases Hin; injection Hin as <-; congruence).
  all: try (intros [= <-]; eexists; split; [simpl; tauto|eassumption]).
  all: try (intros _; split; reflexivity).
Qed.

(** X21.  Once the wallet has accepted the transaction, doSwap records the
    signature and shows the success toast; when the refresh of the hook
    then fails, the toast 'Swap failed to send.' follows although the swap
    was sent, and the balances are not refreshed. *)
Theorem doSwap_after_send (st : State) (w : World) (tx : transaction) (txid : string) :
  In (ESendTransaction tx) (trace (doSwap st w)) ->
  w_sendTransaction w tx = Fulfilled txid ->
  In (ESetLastTx txid) (trace (doSwap st w)) /\
  In (EToast success "Swap sent! Click to view on Solscan."
             (Some ("https://solscan.io/tx/" ++ txid))) (trace (doSwap st w)) /\
  (forall e, w_refresh w = RejectedWith e ->
             In (EToast error "Swap failed to send." None) (trace (doSwap st w)) /\
             ~ In ERefreshBalances (trace (doSwap st w))) /\
  (w_refresh w = Fulfilled tt ->
   existsb is_error_toast (trace (doSwap st w)) = false /\
   In ERefreshBalances (trace (doSwap st w))).
Proof.
  swap_paths st w.
  all: intros Hin Htx; in_cases Hin.
  all: injection Hin as <-.
  all: try congruence.
  all: assert (txid0 = txid) as -> by congruence.
  all: (split; [simpl; tauto|]); (split; [simpl; tauto|]).
  all: split; [intros e' He'|intros Hok]; try discriminate.
  all: try (split; [simpl; tauto|intros H'; in_cases H']).
  all: try (split; [reflexivity|simpl; tauto]).
Qed.

Lemma trace_emit_bind {A : Type} (e : event) (k : unit -> M A) :
  trace (bind (emit e) k) = e :: trace (k tt).
Proof. unfold trace, bind, emit. now destruct (k tt). Qed.

Lemma floor_at_least_one (x : Q) : (1 <= x)%Q -> (1 <= Qfloor x)%Z.
Proof.
  intros H. change 1%Z with (Qfloor 1). now apply Qfloor_resp_le.
Qed.

Lemma minUi_sol_value :
  exists r, binary64 (1 # 1000) = Fin r /\ (1 # 1000 <= r)%Q.
Proof.
  eexists. split; [vm_compute; reflexivity|vm_compute; discriminate].
Qed.

(** An amount whose exact product with the scale is at least 1 does not
    floor to 0 once the product has been rounded. *)
Lemma rounded_floor_not_zero (x scale : Q) :
  (1 <= x * scale)%Q -> floor (mul (Fin x) (Fin scale)) <> of_Z 0.
Proof.
  intros H1 Hzero. apply PageFacts.binary64_ge_one in H1.
  unfold mul in Hzero.
  destruct (binary64 (x * scale)) as [| | |r]; try discriminate.
  simpl in H1. apply Qle_bool_iff in H1.
  change (inject_Z 1) with 1%Q in H1.
  apply floor_at_least_one in H1.
  simpl in Hzero. unfold of_Z in Hzero. injection Hzero as Hfloor.
  unfold Qfloor in *. destruct r as [rn rd]. lia.
Qed.

(** X22.  When [amountAtomic] is the big integer computed from the amount
    text at a scale of at least 1 (at least 1000 for SOL, whose scale is
    10^9), the product being rounded to binary64 before the floor is
    taken, doSwap never stops at its base-unit check: an amount that
    passes the minimum (0.001 SOL, 1 token) is at least one base unit. *)
Theorem doSwap_zero_check_is_dead (st : State) (w : World) (scale : Q) :
  of_Z (amountAtomic st) = atomic_amount parseFloat (amountStr st) (Fin scale) ->
  (if String.eqb (inMintStr st) SOL then 1000 <= scale else 1 <= scale)%Q ->
  trace (doSwap st w)
  <> [EToast error "Amount resolves to 0 in base units. Increase it slightly." None].
Proof.
  intros Hatomic Hscale. unfold Page.doSwap, atomic_amount in *.
  destruct (publicKey st) as [pk|]; [|discriminate].
  destruct (parseFloat (or_zero (amountStr st))) as [| | |x] eqn:Hparse;
    try discriminate.
  unfold le, isFinite, negb, orb. unfold of_Z at 1.
  destruct (Qle_bool x (inject_Z 0)) eqn:Hpos; [discriminate|].
  assert (Hlive : (1 <= x * scale)%Q -> bigIntIsZero (amountAtomic st) = false).
  { intros H1. apply Z.eqb_neq. intros Hzero. rewrite Hzero in Hatomic.
    simpl in Hatomic. unfold lt, Qltb in Hatomic. unfold of_Z at 2 in Hatomic.
    rewrite Hpos in Hatomic. simpl in Hatomic.
    now apply (rounded_floor_not_zero x scale H1). }
  unfold minUiForMint.
  destruct (String.eqb (inMintStr st) SOL) eqn:Hsol.
  - destruct minUi_sol_value as (r & -> & Hr).
    unfold lt, Qltb. destruct (Qle_bool r x) eqn:Hmin; [|discriminate].
    simpl negb. cbv iota.
    apply Qle_bool_iff in Hmin.
    rewrite Hlive.
    + destruct (String.eqb (inMintStr st) (outMintStr st)); [discriminate|].
      unfold pushToast. rewrite trace_emit_bind. discriminate.
    + apply Qle_trans with ((1 # 1000) * 1000)%Q; [vm_compute; discriminate|].
      apply Qmult_le_compat_nonneg; split; try assumption;
        try (vm_compute; discriminate).
      now apply Qle_trans with r.
  - unfold lt, of_Z, Qltb. destruct (Qle_bool (inject_Z 1) x) eqn:Hmin; [|discriminate].
    simpl negb. cbv iota.
    apply Qle_bool_iff in Hmin. change (inject_Z 1) with 1%Q in Hmin.
    rewrite Hlive.
    + destruct (String.eqb (inMintStr st) (outMintStr st)); [discriminate|].
      unfold pushToast. rewrite trace_emit_bind. discriminate.
    + apply Qle_trans with (1 * 1)%Q; [vm_compute; discriminate|].
      apply Qmult_le_compat_nonneg; split; try assumption; vm_compute; discriminate.
Qed.

End Swap.

Lemma doSwap_sends_what_was_built_witness :
  exists quote swapTransaction,
    Prebuilt "swaptx1" = Prebuilt swapTransaction /\
    w_fetchSwapTransaction sample_world quote = Fulfilled (inr swapTransaction).
Proof.
  destruct (proj2 (doSwap_sends_what_was_built "SOL" sample_parseFloat
                     sample_failure_text sample_state sample_world)
                  (Prebuilt "swaptx1"))
    as (q & s & H1 & _ & H2 & _).
  - vm_compute. tauto.
  - exists q, s. split; assumption.
Defined.

Lemma doSwap_reuses_cached_quote_witness :
  ~ In EFetchQuote
      (trace (doSwap "SOL" sample_parseFloat sample_failure_text
                     sample_state_cached sample_world)).
Proof.
  apply (doSwap_reuses_cached_quote "SOL" sample_parseFloat sample_failure_text
           sample_state_cached sample_world).
  reflexivity.
Defined.

Lemma doSwap_silent_without_route_witness :
  doSwap "SOL" sample_parseFloat sample_failure_text sample_state sample_world_no_route
  = ([EToast info "Building route…" None; EFetchQuote], None).
Proof.
  apply (doSwap_silent_without_route "SOL" sample_parseFloat sample_failure_text
           sample_state sample_world_no_route JNull).
  - vm_compute. tauto.
  - reflexivity.
  - reflexivity.
Defined.

Lemma doSwap_rejects_when_build_rejects_witness :
  existsb is_error_toast
    (trace (doSwap "SOL" sample_parseFloat sample_failure_text sample_state
                   sample_world_build_rejects)) = false.
Proof.
  apply (doSwap_rejects_when_build_rejects "SOL" sample_parseFloat sample_failure_text
           sample_state sample_world_build_rejects (mkError "500")).
  reflexivity.
Defined.

Lemma doSwap_after_send_witness :
  In (EToast error "Swap failed to send." None)
     (trace (doSwap "SOL" sample_parseFloat sample_failure_text sample_state
                    sample_world_refresh_fails)).
Proof.
  refine (proj1 (proj1 (proj2 (proj2 (doSwap_after_send "SOL" sample_parseFloat
            sample_failure_text sample_state sample_world_refresh_fails
            (Prebuilt "swaptx1") "signature1" _ eq_refl)))
            (mkError "refresh") eq_refl)).
  vm_compute. tauto.
Defined.

Lemma doSwap_zero_check_is_dead_witness :
  trace (doSwap "SOL" sample_parseFloat sample_failure_text sample_state sample_world)
  <> [EToast error "Amount resolves to 0 in base units. Increase it slightly." None].
Proof.
  apply (doSwap_zero_check_is_dead "SOL" sample_parseFloat sample_failure_text
           sample_state sample_world (inject_Z 1000000000)).
  - reflexivity.
  - vm_compute. discriminate.
Defined.

End SwapFacts.

(** ** sendWithdrawSol and refreshWithdrawFee, further *)
Module WithdrawFacts.

Import Js Page PageMore.

Section Withdraw.

Variable parseFloat : string -> number.
Variable trim : string -> string.
Variable PublicKey_new : string -> option PublicKey.
Variable needUi_text : number -> string.
Variable transfer_accepts : number -> bool.

Local Abbreviation sendWithdrawSol :=
  (sendWithdrawSol parseFloat trim PublicKey_new needUi_text transfer_accepts).
Local Abbreviation refreshWithdrawFee :=
  (refreshWithdrawFee parseFloat trim PublicKey_new transfer_accepts).
Local Abbreviation estimateSolTransferFee :=
  (estimateSolTransferFee transfer_accepts).
Local Abbreviation known_fee := (known_fee transfer_accepts).
Local Abbreviation lamports_of_input := (lamports_of_input parseFloat).

Local Arguments withdraw_need : simpl never.
Local Arguments withdraw_have : simpl never.
Local Arguments Page.lamports_of_input : simpl never.
Local Arguments invalid_amount : simpl never.
Local Arguments lt : simpl never.
Local Arguments le : simpl never.

(** Every path through [sendWithdrawSol]. *)
Ltac withdraw_paths st w :=
  unfold Page.sendWithdrawSol, Page.estimateSolTransferFee;
  destruct (publicKey st) as [pk|] eqn:Hpk; [|simpl];
  [destruct (PublicKey_new (trim (wdTo st))) as [toPk|] eqn:Hto; [|simpl];
   [destruct (invalid_amount _) eqn:Hinv; [simpl|];
    [|destruct (wdFeeLamports st) as [fee0|] eqn:Hfee;
      [|destruct (w_estimate_blockhash w) as [bh0|ebh0] eqn:Hbh0];
      simpl;
      repeat match goal with
             | |- context [or_else (w_getFeeForMessage w ?t) _ _] =>
                 let Hf := fresh "Hfee0" in
                 destruct (w_getFeeForMessage w t) as [[fee0|]|efee] eqn:Hf; simpl
             | |- context [if lt ?a ?b then _ else _] =>
                 let Hl := fresh "Hlt" in destruct (lt a b) eqn:Hl; simpl
             | |- context [if transfer_accepts ?a then _ else _] =>
                 let Ha := fresh "Haccepts" in
                 destruct (transfer_accepts a) eqn:Ha; simpl
             | |- context [or_else (w_send_blockhash w) _ _] =>
                 let Hb := fresh "Hbh" in
                 destruct (w_send_blockhash w) as [bh|ebh] eqn:Hb; simpl
             | |- context [or_else (w_sendTransaction w ?t) _ _] =>
                 let Hs := fresh "Hsend" in
                 destruct (w_sendTransaction w t) as [sig0|esend] eqn:Hs; simpl
             end]|]|].

Ltac in_cases H :=
  simpl in H;
  repeat match type of H with
         | _ \/ _ => destruct H as [H|H]
         | False => destruct H
         end;
  try discriminate H.

(** X23.  Every run of sendWithdrawSol shows exactly one toast and sends at
    most one transaction; the toast is the success toast exactly when a
    transaction was sent and the wallet accepted it. *)
Theorem withdraw_shows_one_toast (st : State) (w : World) :
  List.length (filter is_toast (trace (sendWithdrawSol st w))) = 1%nat /\
  (List.length (filter is_send (trace (sendWithdrawSol st w))) <= 1)%nat /\
  (existsb is_success_toast (trace (sendWithdrawSol st w)) = true <->
   exists tx sig, In (ESendTransaction tx) (trace (sendWithdrawSol st w)) /\
                  w_sendTransaction w tx = Fulfilled sig).
Proof.
  withdraw_paths st w.
  all: (split; [reflexivity|]); (split; [simpl; lia|]).
  all: split; [intros H; try discriminate H|intros (tx & sig & Hin & Hs); in_cases Hin].
  all: try (do 2 eexists; split; [simpl; tauto|eassumption]).
  all: try reflexivity.
  all: injection Hin as <-; congruence.
Qed.

Ltac eval_fee :=
  unfold Page.known_fee, Page.estimateSolTransferFee;
  repeat (match goal with
          | E : _ = _ |- _ => rewrite E
          end; simpl).

(** X24.  A run of sendWithdrawSol that one of its checks stops (no
    wallet, no valid address, no valid amount, no fee, too small a
    balance) never calls setWdSending, and every other run does.  Such a
    run calls it exactly twice: with true, before which nothing has been
    sent, and with false as the last thing it does, whether the send
    succeeded or failed. *)
Theorem withdraw_lowers_sending_flag (st : State) (w : World) :
  let t := trace (sendWithdrawSol st w) in
  let lam := lamports_of_input (wdSol st) in
  (forall tx, In (ESendTransaction tx) t -> In (ESetWdSending true) t) /\
  (In (ESetWdSending true) t -> last t EGetLatestBlockhash = ESetWdSending false) /\
  (~ In (ESetWdSending true) t -> ~ In (ESetWdSending false) t) /\
  (filter is_flag t = [] <->
   publicKey st = None
   \/ PublicKey_new (trim (wdTo st)) = None
   \/ invalid_amount lam = true
   \/ (exists toPk,
          PublicKey_new (trim (wdTo st)) = Some toPk /\
          known_fee st w toPk lam = None)
   \/ (exists toPk fee,
          PublicKey_new (trim (wdTo st)) = Some toPk /\
          known_fee st w toPk lam = Some fee /\
          lt (withdraw_have st) (withdraw_need lam fee) = true)) /\
  (filter is_flag t <> [] ->
   exists before after,
     t = (before ++ ESetWdSending true :: after ++ [ESetWdSending false])%list /\
     existsb is_flag before = false /\ existsb is_send before = false /\
     existsb is_flag after = false).
Proof.
  cbv zeta. withdraw_paths st w.
  all: split; [intros tx Hin; in_cases Hin; simpl; tauto|].
  all: split; [intros Hin; in_cases Hin; reflexivity|].
  all: split; [intros Hno Hin; in_cases Hin; apply Hno; simpl; tauto|].
  all: split; [split|].
  (* no call of the setter: one of the checks has stopped the run *)
  all: try (intros Hnone; discriminate Hnone).
  all: try (intros _;
            first [ left; reflexivity
                  | right; left; reflexivity
                  | right; right; left; reflexivity
                  | right; right; right; left; eexists;
                    split; [reflexivity|eval_fee; reflexivity]
                  | right; right; right; right; do 2 eexists;
                    split; [reflexivity|split; [eval_fee; reflexivity|eassumption]] ]).
  (* a check has stopped the run: no call of the setter *)
  all: try (intros _; reflexivity).
  all: try (intros [Hc|[Hc|[Hc|[(p & Hp & Hc)|(p & fe & Hp & Hc & Hl)]]]];
            try discriminate Hc;
            injection Hp as <-; revert Hc; eval_fee; intros Hc;
            try discriminate Hc; injection Hc as <-; congruence).
  (* the two calls, in their places *)
  all: try (intros Hsome; exfalso; apply Hsome; reflexivity).
  all: intros _;
    match goal with
    | |- exists before after, ?t = _ /\ _ =>
        exists (before_raise t), (after_raise t)
    end; repeat split; reflexivity.
Qed.

(** X25.  Only a withdrawal that was sent and accepted closes the dialog,
    resets the form (empty address, amount 0.1, no stored fee) and
    refreshes the balances; every other run leaves the form as it was. *)
Theorem withdraw_resets_form_on_success_only (st : State) (w : World) :
  let t := trace (sendWithdrawSol st w) in
  (existsb is_success_toast t = true ->
   wdTo (settle t st) = "" /\ wdSol (settle t st) = "0.1" /\
   wdFeeLamports (settle t st) = None /\
   In (ESetWdOpen false) t /\ In ERefreshBalances t) /\
  (existsb is_success_toast t = false ->
   wdTo (settle t st) = wdTo st /\ wdSol (settle t st) = wdSol st /\
   wdFeeLamports (settle t st) = wdFeeLamports st /\
   ~ In (ESetWdOpen false) t /\ ~ In ERefreshBalances t).
Proof.
  withdraw_paths st w.
  all: split; intros H; try discriminate H.
  all: repeat split; try reflexivity; try (simpl; tauto); try assumption.
  all: try (symmetry; assumption).
  all: intros Hin; in_cases Hin.
Qed.

(** X26.  With a fee stored in the form, sendWithdrawSol asks the RPC node
    for no fee: it works with the stored one, whatever amount and address
    it was estimated for, and nothing but the send's own blockhash and the
    wallet has a say in the outcome. *)
Theorem withdraw_trusts_stored_fee (st : State) (w w' : World) (fee : Q) :
  wdFeeLamports st = Some fee ->
  existsb is_fee_query (trace (sendWithdrawSol st w)) = false /\
  known_fee st w = (fun _ _ => Some fee) /\
  (w_send_blockhash w' = w_send_blockhash w ->
   w_sendTransaction w' = w_sendTransaction w ->
   sendWithdrawSol st w' = sendWithdrawSol st w).
Proof.
  intros Hstored. split; [|split].
  - revert Hstored. withdraw_paths st w.
    all: intros Hstored; try discriminate Hstored; reflexivity.
  - unfold known_fee. now rewrite Hstored.
  - intros H1 H2. unfold Page.sendWithdrawSol. rewrite Hstored, H1, H2. reflexivity.
Qed.

(** X27.  refreshWithdrawFee shows no toast and sends nothing; a fee it
    leaves in the form is the fee the RPC node gave for a transfer of the
    typed amount from the wallet to the typed address; and the estimating
    flag, once raised, is lowered at the end. *)
Theorem refresh_fee_is_for_the_typed_transfer (st : State) (w : World) :
  let t := trace (refreshWithdrawFee st w) in
  existsb is_toast t = false /\ existsb is_send t = false /\
  (forall fee,
      wdFeeLamports (settle t st) = Some fee ->
      exists pk toPk blockhash,
        publicKey st = Some pk /\
        PublicKey_new (trim (wdTo st)) = Some toPk /\
        invalid_amount (lamports_of_input (wdSol st)) = false /\
        w_estimate_blockhash w = Fulfilled blockhash /\
        w_getFeeForMessage w
          (Transfer pk toPk (lamports_of_input (wdSol st)) blockhash pk)
        = Fulfilled (Some fee)) /\
  (In (ESetWdEstimating true) t -> last t EGetLatestBlockhash = ESetWdEstimating false).
Proof.
  unfold Page.refreshWithdrawFee, Page.estimateSolTransferFee.
  destruct (publicKey st) as [pk|] eqn:Hpk; simpl.
  2: { repeat split; try discriminate. intros H. in_cases H. }
  destruct (invalid_amount _) eqn:Hinv; simpl.
  1: { repeat split; try discriminate. intros H. in_cases H. }
  destruct (PublicKey_new (trim (wdTo st))) as [toPk|] eqn:Hto; simpl.
  2: { repeat split; try discriminate. intros H. in_cases H. }
  destruct (w_estimate_blockhash w) as [bh|e] eqn:Hbh; simpl.
  2: { repeat split; try discriminate. }
  destruct (transfer_accepts _) eqn:Haccepts; simpl.
  2: { repeat split; try discriminate. }
  match goal with
  | |- context [or_else (w_getFeeForMessage w ?t) _ _] =>
      destruct (w_getFeeForMessage w t) as [[fee0|]|e] eqn:Hfee; simpl
  end.
  all: repeat split; try discriminate.
  intros fee [= <-]. exists pk, toPk, bh. repeat split; assumption.
Qed.

End Withdraw.

Lemma withdraw_shows_one_toast_witness :
  existsb is_success_toast
    (trace (sendWithdrawSol sample_parseFloat sample_trim sample_PublicKey_new
                            sample_needUi sample_transfer_accepts sample_state sample_world)) = true.
Proof.
  apply (withdraw_shows_one_toast sample_parseFloat sample_trim sample_PublicKey_new
           sample_needUi sample_transfer_accepts sample_state sample_world).
  exists (Transfer "Wallet1111" "Dest1111" (of_Z 100000000) "blockhash2" "Wallet1111"),
         "signature1".
  split; [vm_compute; tauto|reflexivity].
Defined.

Lemma withdraw_lowers_sending_flag_witness :
  last (trace (sendWithdrawSol sample_parseFloat sample_trim sample_PublicKey_new
                               sample_needUi sample_transfer_accepts sample_state
                               sample_world))
       EGetLatestBlockhash = ESetWdSending false
  /\ filter is_flag
       (trace (sendWithdrawSol sample_parseFloat sample_trim sample_PublicKey_new
                               sample_needUi sample_transfer_accepts sample_state_short
                               sample_world)) = [].
Proof.
  pose proof (withdraw_lowers_sending_flag sample_parseFloat sample_trim
                sample_PublicKey_new sample_needUi sample_transfer_accepts
                sample_state sample_world) as (_ & Hlast & _).
  pose proof (withdraw_lowers_sending_flag sample_parseFloat sample_trim
                sample_PublicKey_new sample_needUi sample_transfer_accepts
                sample_state_short sample_world) as (_ & _ & _ & Hstop & _).
  split.
  - apply Hlast. vm_compute. tauto.
  - apply Hstop. right; right; right; right.
    exists "Dest1111", (inject_Z 5000). repeat split; reflexivity.
Defined.

Lemma withdraw_resets_form_witness :
  wdTo (settle (trace (sendWithdrawSol sample_parseFloat sample_trim
                         sample_PublicKey_new sample_needUi sample_transfer_accepts
                         sample_state sample_world))
               sample_state) = "".
Proof.
  exact (proj1 (proj1 (withdraw_resets_form_on_success_only
                         sample_parseFloat sample_trim sample_PublicKey_new
                         sample_needUi sample_transfer_accepts sample_state
                         sample_world) eq_refl)).
Defined.

Lemma withdraw_trusts_stored_fee_witness :
  existsb is_fee_query
    (trace (sendWithdrawSol sample_parseFloat sample_trim sample_PublicKey_new
                            sample_needUi sample_transfer_accepts sample_state sample_world)) = false.
Proof.
  apply (withdraw_trusts_stored_fee sample_parseFloat sample_trim sample_PublicKey_new
           sample_needUi sample_transfer_accepts sample_state sample_world sample_world (inject_Z 5000)).
  reflexivity.
Defined.

Lemma refresh_fee_witness :
  exists pk toPk blockhash,
    publicKey sample_state = Some pk /\
    sample_PublicKey_new (sample_trim (wdTo sample_state)) = Some toPk /\
    w_estimate_blockhash sample_world = Fulfilled blockhash.
Proof.
  destruct (proj1 (proj2 (proj2 (refresh_fee_is_for_the_typed_transfer
              sample_parseFloat sample_trim sample_PublicKey_new
              sample_transfer_accepts sample_state sample_world)))
             (inject_Z 5000) eq_refl)
    as (pk & toPk & bh & H1 & H2 & _ & H3 & _).
  exists pk, toPk, bh. repeat split; assumption.
Defined.

End WithdrawFacts.

(** ** The two versions of getMintDecimals, the waiting time of
    fetchQuoteWithRetry, and a cleanup that comes too early *)
Module MoreFacts.

Import Js Page PageMore.

(** X28.  The two versions of getMintDecimals give the same result on every
    value but one kind: on a truthy value whose [data] is null, the typed
    version throws a TypeError where the first version returns 9.  Both
    pass on the rejection of the RPC call. *)
Theorem getMintDecimals_versions_agree (v : value) (e : Error) :
  (truthy v = true -> get_prop v "data" = Normal JNull ->
   getMintDecimals_typed (Fulfilled v) = ThrowsTypeError /\
   getMintDecimals (Fulfilled v) = Returns (of_Z 9)) /\
  (~ (truthy v = true /\ get_prop v "data" = Normal JNull) ->
   getMintDecimals_typed (Fulfilled v) = getMintDecimals (Fulfilled v)) /\
  getMintDecimals_typed (RejectedWith e) = Throws e /\
  getMintDecimals (RejectedWith e) = Throws e.
Proof.
  split; [|split; [|split; reflexivity]].
  - intros Ht Hd. unfold getMintDecimals_typed, getMintDecimals, has_parsed_data.
    destruct v as [| |b|n|s|bytes|fields]; simpl in *; try discriminate.
    destruct (lookup "data" fields) as [d|]; [|discriminate].
    injection Hd as ->. split; reflexivity.
  - intros Hno. unfold getMintDecimals_typed, getMintDecimals, has_parsed_data.
    destruct v as [| |b|n|s|bytes|fields]; try reflexivity.
    + simpl. destruct b; reflexivity.
    + simpl. destruct n as [| | |q]; simpl; try reflexivity.
      destruct (Qeq_bool q 0); reflexivity.
    + simpl. destruct (String.eqb s ""); reflexivity.
    + simpl in *. destruct (lookup "data" fields) as [d|]; [|reflexivity].
      destruct d as [| |b|n|s|bytes|dfields]; simpl; try reflexivity.
      * exfalso. apply Hno. split; reflexivity.
      * destruct b; reflexivity.
      * destruct n as [| | |q]; simpl; try reflexivity.
        destruct (Qeq_bool q 0); reflexivity.
      * destruct (String.eqb s ""); reflexivity.
      * destruct (lookup "parsed" dfields) as [p|] eqn:Hl; simpl; rewrite ?Hl;
          [|reflexivity].
        destruct (truthy p) eqn:Hp; simpl; [reflexivity|].
        rewrite PageFacts.numeric_decimals_spec.
        now rewrite (PageFacts.falsy_has_no_decimals _ Hp).
Qed.

Lemma getMintDecimals_versions_agree_witness :
  getMintDecimals_typed (Fulfilled (JObject [("data", JNull)])) = ThrowsTypeError /\
  getMintDecimals (Fulfilled (JObject [("data", JNull)])) = Returns (of_Z 9).
Proof.
  apply (getMintDecimals_versions_agree (JObject [("data", JNull)]) (mkError "x"));
    reflexivity.
Defined.

Lemma retry_loop_wait (doFetch : nat -> attempt) (d : Z) (remaining : nat) :
  0 <= d ->
  forall (i : nat) (lastErr : option Error),
    0 <= 2 * total_wait (fst (retry_loop doFetch d remaining i lastErr))
    <= d * Z.of_nat remaining * (2 * Z.of_nat i + Z.of_nat remaining + 1) /\
    ((forall j, (j < remaining)%nat -> attempt_fails (doFetch (i + j)%nat) = true) ->
     2 * total_wait (fst (retry_loop doFetch d remaining i lastErr))
     = d * Z.of_nat remaining * (2 * Z.of_nat i + Z.of_nat remaining + 1)).
Proof.
  intros Hd. induction remaining as [|r IH]; intros i lastErr.
  - simpl. split; [lia|intros _; lia].
  - cbn [retry_loop].
    assert (Hstep : forall t : list retry_event,
               total_wait (CallFetch i :: Sleep (d * (Z.of_nat i + 1)) :: t)
               = d * (Z.of_nat i + 1) + total_wait t) by reflexivity.
    assert (Hone : total_wait [CallFetch i] = 0) by reflexivity.
    rewrite Nat2Z.inj_succ.
    pose proof (Nat2Z.is_nonneg r) as Hr. pose proof (Nat2Z.is_nonneg i) as Hi0.
    destruct (doFetch i) as [q|e] eqn:Hi.
    + destruct (truthy q) eqn:Hq.
      * cbn [fst]. rewrite Hone. split.
        -- nia.
        -- intros Hall. specialize (Hall 0%nat ltac:(lia)).
           rewrite Nat.add_0_r, Hi in Hall. simpl in Hall. now rewrite Hq in Hall.
      * specialize (IH (S i) lastErr). rewrite Nat2Z.inj_succ in IH.
        destruct (retry_loop doFetch d r (S i) lastErr) as [t res]. cbn [fst] in *.
        rewrite Hstep. destruct IH as [IH1 IH2]. split; [nia|].
        intros Hall. rewrite Z.mul_add_distr_l, IH2; [nia|].
        intros j Hj. specialize (Hall (S j) ltac:(lia)).
        now rewrite Nat.add_succ_r in Hall.
    + specialize (IH (S i) (Some e)). rewrite Nat2Z.inj_succ in IH.
      destruct (retry_loop doFetch d r (S i) (Some e)) as [t res]. cbn [fst] in *.
      rewrite Hstep. destruct IH as [IH1 IH2]. split; [nia|].
      intros Hall. rewrite Z.mul_add_distr_l, IH2; [nia|].
      intros j Hj. specialize (Hall (S j) ltac:(lia)).
      now rewrite Nat.add_succ_r in Hall.
Qed.

(** X29.  With a delay that is not negative, fetchQuoteWithRetry waits at
    most delayMs * tries * (tries + 1) / 2 milliseconds in all, 2700 with
    the defaults, and exactly that long when every attempt fails: it also
    waits after the last failed attempt, before it throws. *)
Theorem fetchQuoteWithRetry_total_wait
        (doFetch : nat -> attempt) (tries : option nat) (delayMs : option Z) :
  let n := Z.of_nat (match tries with Some n => n | None => 3%nat end) in
  let d := match delayMs with Some d => d | None => 450 end in
  let t := fst (fetchQuoteWithRetry doFetch tries delayMs) in
  0 <= d ->
  2 * total_wait t <= d * n * (n + 1) /\
  ((forall j, (Z.of_nat j < n)%Z -> attempt_fails (doFetch j) = true) ->
   2 * total_wait t = d * n * (n + 1)).
Proof.
  intros n d t Hd. subst t n. unfold fetchQuoteWithRetry.
  fold d. set (m := match tries with Some n => n | None => 3%nat end).
  destruct (retry_loop_wait doFetch d m Hd 0%nat None) as [H1 H2].
  destruct (retry_loop doFetch d m 0 None) as [t [q lastErr]].
  cbn [fst] in H1, H2. change (Z.of_nat 0) with 0 in H1, H2.
  assert (Ht : forall r : settled value,
             fst (match q with Some q0 => (t, Returns q0) | None => (t, r) end) = t)
    by (intros r; now destruct q).
  rewrite Ht. split; [lia|].
  intros Hall. rewrite H2; [lia|].
  intros j Hj. apply Hall. lia.
Qed.

Lemma fetchQuoteWithRetry_total_wait_witness :
  2 * total_wait (fst (fetchQuoteWithRetry sample_fetch_failing None None))
  = 450 * 3 * (3 + 1).
Proof.
  apply (fetchQuoteWithRetry_total_wait sample_fetch_failing None None).
  - lia.
  - intros [|[|[|j]]] Hj; reflexivity.
Defined.

Import BalanceEffect.

(** X30.  When the cleanup of the subscription effect runs while the body
    still waits for refreshBalances, it removes the SOL listener; the body
    then goes on, adds the TROLL listener and ends holding it: nothing
    removes that listener any more. *)
Theorem listener_added_after_cleanup_stays
        (a : Answers) (WS : option string) (pk : PublicKey)
        (fastPoll : option positive) (c0 : config)
        (sid tid : nat) (acct : PublicKey) :
  effect a WS (Some pk) fastPoll None = Some c0 ->
  sol_subscription a = Some sid ->
  refreshed_account a = Some acct ->
  troll_subscription a = Some tid ->
  tid <> sid ->
  let c := finish a (cleanup (resume a c0)) in
  at_pc (resume a c0) = AwaitRefresh /\
  In (RemoveListener sid) (log (cleanup (resume a c0))) /\
  In (AddListener tid acct) (log c) /\
  ~ In (RemoveListener tid) (log c) /\
  trollSubId c = Some tid /\ at_pc c = Done.
Proof.
  unfold effect. destruct WS as [ws|]; [|discriminate].
  destruct (String.eqb ws ""); [discriminate|].
  destruct a as [s t r ih]. simpl.
  intros [= <-] -> -> -> Hne.
  unfold finish. destruct fastPoll as [h|]; simpl.
  all: repeat split; try tauto.
  all: intros H; repeat (destruct H as [H|H]; try discriminate H); try contradiction.
  all: injection H as H; congruence.
Qed.

Lemma listener_added_after_cleanup_witness :
  ~ In (RemoveListener 8)
      (log (finish sample_working
              (cleanup (resume sample_working
                 (mkConfig (AwaitSol 7) None None false None None
                           [AddListener 7 "Wallet1111"]))))).
Proof.
  apply (listener_added_after_cleanup_stays sample_working (Some "wss://rpc")
           "Wallet1111" None _ 7%nat 8%nat "TrollAcct11" eq_refl eq_refl eq_refl eq_refl).
  discriminate.
Defined.

End MoreFacts.
